(** * FloraJS: the Agent stepping engine (src/agent.js)

    A shallow embedding of [Agent] and of the methods on its prototype.

    - JavaScript numbers are kept behind the interface [Number]; the file
      gives two instances: IEEE binary64 ([float], what the engine
      really computes with, executable) and the real numbers ([R], the
      idealised arithmetic in which exact numerical statements are made).
    - [Vector] objects are mutable and shared, so they live in a store
      ([Heap]) and every field of an agent that holds a vector holds a
      reference into it.  Methods of [Vector] update the store in place.
    - The globals read by [step] (liquids, attractors, repellers, the
      element list, the mouse) are gathered in [Env].
    - The hooks and the sensors are functions of the agent; they are kept
      in [Callbacks], beside the record of the agent's fields.  A hook may
      rewrite the agent and the store.  Calls of hooks and assignments to
      a liquid's DOM class are recorded, in order, in the [log] of the
      state. *)

From Stdlib Require Import ZArith Uint63 PrimFloat FloatOps SpecFloat.
From Stdlib Require Import Reals Lra.
From stdpp Require Import gmap strings list fin_maps.

Set Default Proof Using "Type".

(* ================================================================== *)
(** ** Numbers *)

(** The operations on JavaScript numbers that agent.js uses. *)
Class Number (N : Type) := {
  nlit    : Z -> N;            (* an integer literal *)
  nadd    : N -> N -> N;
  nsub    : N -> N -> N;
  nmul    : N -> N -> N;
  ndiv    : N -> N -> N;
  nneg    : N -> N;            (* unary minus *)
  nsqrt   : N -> N;            (* Math.sqrt *)
  nltb    : N -> N -> bool;    (* a < b *)
  neqb    : N -> N -> bool;    (* a === b *)
  ntruthy : N -> bool;         (* ToBoolean: false on 0, -0 and NaN *)
  nfloor  : N -> option Z      (* Math.floor, when the result is an integer *)
}.

(** The part of [Math] used for angles. *)
Class MathLib (N : Type) := {
  ncos   : N -> N;
  nsin   : N -> N;
  natan2 : N -> N -> N;        (* Math.atan2(y, x) *)
  npi    : N
}.

Declare Scope num_scope.
Delimit Scope num_scope with num.
Infix "[+]" := nadd (at level 50, left associativity) : num_scope.
Infix "[-]" := nsub (at level 50, left associativity) : num_scope.
Infix "[*]" := nmul (at level 40, left associativity) : num_scope.
Infix "[/]" := ndiv (at level 40, left associativity) : num_scope.
Infix "[<]" := nltb (at level 70, no associativity) : num_scope.
Notation "a [>] b" := (nltb b a) (at level 70, no associativity) : num_scope.
Notation "# z" := (nlit z) (at level 9, format "# z") : num_scope.

(** References to [Vector] objects. *)
Definition ref := positive.

(** A constructor returns or throws. *)
Inductive Completion (A : Type) :=
  | Normal (a : A)
  | Throw (message : string).
Arguments Normal {A} a.
Arguments Throw {A} message.

Section Model.

Context {N : Type} `{Number N} `{MathLib N}.
Local Open Scope num_scope.

(* ================================================================== *)
(** ** Vector *)

Record Vector := mkVector { vec_x : N; vec_y : N }.

#[export] Instance Vector_inhabited : Inhabited Vector :=
  populate (mkVector #0 #0).

(** The store of [Vector] objects. *)
Abbreviation Heap := (gmap ref Vector).

(** [r.x], [r.y] and the assignments [r.x = n], [r.y = n]. *)
Definition get_x (h : Heap) (r : ref) : N := vec_x (h !!! r).
Definition get_y (h : Heap) (r : ref) : N := vec_y (h !!! r).

Definition set_x (r : ref) (n : N) (h : Heap) : Heap :=
  <[r := mkVector n (get_y h r)]> h.
Definition set_y (r : ref) (n : N) (h : Heap) : Heap :=
  <[r := mkVector (get_x h r) n]> h.

(** Modelled from the spec: the constructor of [exports.Vector], which is
    not among the sources; [new exports.Vector(x, y)] is a fresh object
    holding [x] and [y]. *)
Definition new_Vector (x y : N) (h : Heap) : ref * Heap :=
  let r := fresh (dom h) in (r, <[r := mkVector x y]> h).

(** Modelled from the spec: [exports.Vector] is not among the sources. The
    methods below follow section 4.1: each mutates the receiver; [normalize]
    is a no-op on magnitude 0, [limit] clamps the magnitude from above and
    [limitLow] from below, both preserving direction. *)
Definition Vector_add (r o : ref) (h : Heap) : Heap :=
  let h1 := set_x r (get_x h r [+] get_x h o) h in
  set_y r (get_y h1 r [+] get_y h1 o) h1.

(** Modelled from the spec: [Vector.prototype.sub], see [Vector_add]. *)
Definition Vector_sub (r o : ref) (h : Heap) : Heap :=
  let h1 := set_x r (get_x h r [-] get_x h o) h in
  set_y r (get_y h1 r [-] get_y h1 o) h1.

(** Modelled from the spec: [Vector.prototype.mult], see [Vector_add]. *)
Definition Vector_mult (r : ref) (n : N) (h : Heap) : Heap :=
  let h1 := set_x r (get_x h r [*] n) h in
  set_y r (get_y h1 r [*] n) h1.

(** Modelled from the spec: [Vector.prototype.div], see [Vector_add]. *)
Definition Vector_div (r : ref) (n : N) (h : Heap) : Heap :=
  let h1 := set_x r (get_x h r [/] n) h in
  set_y r (get_y h1 r [/] n) h1.

(** Modelled from the spec: [Vector.prototype.mag], see [Vector_add]. *)
Definition Vector_mag (h : Heap) (r : ref) : N :=
  nsqrt (get_x h r [*] get_x h r [+] get_y h r [*] get_y h r).

(** Modelled from the spec: [Vector.prototype.distance], see [Vector_add]. *)
Definition Vector_distance (h : Heap) (r o : ref) : N :=
  let dx := get_x h o [-] get_x h r in
  let dy := get_y h o [-] get_y h r in
  nsqrt (dx [*] dx [+] dy [*] dy).

(** Modelled from the spec: [Vector.prototype.normalize], see [Vector_add]. *)
Definition Vector_normalize (r : ref) (h : Heap) : Heap :=
  let m := Vector_mag h r in
  if neqb m #0 then h else Vector_div r m h.

(** Modelled from the spec: [Vector.prototype.limit], see [Vector_add]. *)
Definition Vector_limit (r : ref) (high : N) (h : Heap) : Heap :=
  if Vector_mag h r [>] high
  then Vector_mult r high (Vector_normalize r h)
  else h.

(** Modelled from the spec: [Vector.prototype.limitLow], see [Vector_add]. *)
Definition Vector_limitLow (r : ref) (low : N) (h : Heap) : Heap :=
  if Vector_mag h r [<] low
  then Vector_mult r low (Vector_normalize r h)
  else h.

(** Modelled from the spec: the static [Vector.VectorSub(a, b)], a new
    vector [a - b]. *)
Definition VectorSub (a b : ref) (h : Heap) : ref * Heap :=
  new_Vector (get_x h a [-] get_x h b) (get_y h a [-] get_y h b) h.

(* ================================================================== *)
(** ** Utils *)

(** Modelled from the spec: [exports.Utils] is not among the sources.
    [clone] copies a vector into a new object. *)
Definition Utils_clone (r : ref) (h : Heap) : ref * Heap :=
  new_Vector (get_x h r) (get_y h r) h.

(** Modelled from the spec: [Utils.constrain(val, low, high)] clamps [val]
    into the interval (section 4.3). *)
Definition Utils_constrain (val low high : N) : N :=
  if val [>] high then high
  else if val [<] low then low
  else val.

(** Modelled from the spec: [Utils.map] is the linear ramp of section 4.2. *)
Definition Utils_map (value min1 max1 min2 max2 : N) : N :=
  let unitratio := (value [-] min1) [/] (max1 [-] min1) in
  unitratio [*] (max2 [-] min2) [+] min2.

(** Modelled from the spec: conversion between degrees and radians. *)
Definition Utils_degreesToRadians (degrees : N) : N :=
  degrees [*] (npi [/] #180).

(** Modelled from the spec: see [Utils_degreesToRadians]. *)
Definition Utils_radiansToDegrees (radians : N) : N :=
  radians [*] (#180 [/] npi).

(* ================================================================== *)
(** ** The objects an agent reads *)

(** [world]: only [location] (the camera offset) is written by agents. *)
Record World := mkWorld {
  world_width    : N;
  world_height   : N;
  world_gravity  : ref;
  world_wind     : ref;
  world_c        : option N;      (* friction; may be undefined *)
  world_location : ref
}.

(** An entry of [exports.elementList.all()]. *)
Record Element := mkElement {
  el_id        : nat;
  el_className : string;
  el_location  : ref;
  el_velocity  : ref
}.

(** An entry of [exports.liquids]. *)
Record Liquid := mkLiquid {
  liq_id        : nat;
  liq_className : string;
  liq_location  : ref;
  liq_width     : N;
  liq_height    : N;
  liq_c         : N
}.

(** An entry of [exports.attractors] or [exports.repellers]. *)
Record Attractor := mkAttractor {
  att_id       : nat;
  att_location : ref;
  att_width    : N;
  att_height   : N;
  att_G        : N;
  att_mass     : N
}.

(** What [seek] and [follow] need of their argument. *)
Record Target := mkTarget { target_location : ref }.

(** [this.parent]. *)
Record Parent := mkParent {
  parent_location : ref;
  parent_angle    : N
}.

(** [this.flowField]: [field[col][row]] is a vector. *)
Record FlowField := mkFlowField {
  ff_resolution : N;
  ff_field      : gmap Z (gmap Z ref)
}.

(** The globals of the library that [step] reads. *)
Record Env := mkEnv {
  liquids    : list Liquid;
  repellers  : list Attractor;
  attractors : list Attractor;
  elements   : list Element;
  mouse_loc  : N * N
}.

(* ================================================================== *)
(** ** Agent *)

(** The fields of an agent.  The first block is set by the [Agent]
    constructor, the second is inherited from [Element]. *)
Record Agent := mkAgent {
  mass               : N;
  maxSpeed           : N;
  minSpeed           : N;
  motorSpeed         : N;
  lifespan           : N;
  offsetDistance     : N;
  offsetAngle        : N;
  pointToDirection   : bool;
  followMouse        : bool;
  seekTarget         : option Target;
  followTarget       : option Target;
  isStatic           : bool;
  draggable          : bool;
  checkEdges         : bool;
  wrapEdges          : bool;
  avoidEdges         : bool;
  avoidEdgesStrength : N;
  bounciness         : N;
  maxSteeringForce   : N;
  turningRadius      : N;
  thrust             : N;
  flocking           : bool;
  desiredSeparation  : N;
  separateStrength   : N;
  alignStrength      : N;
  cohesionStrength   : N;
  flowField          : option FlowField;
  (* inherited *)
  id                 : nat;
  className          : string;
  width              : N;
  height             : N;
  angle              : N;
  isPressed          : bool;
  controlCamera      : bool;
  parent             : option Parent;
  world              : World;
  location           : ref;
  velocity           : ref;
  acceleration       : ref;
  (* scratch vectors *)
  applyForceVector        : ref;
  followTargetVector      : ref;
  followDesiredVelocity   : ref;
  separateSumForceVector  : ref;
  alignSumForceVector     : ref;
  cohesionSumForceVector  : ref;
  zeroForceVector         : ref;
  cameraDiffVector        : ref;
  checkCameraEdgesVector  : ref
}.

(** Assignments to the three fields of [this] that [step] writes. *)
Definition set_angle (n : N) (a : Agent) : Agent :=
  let 'mkAgent f1 f2 f3 f4 f5 f6 f7 f8 f9 f10 f11 f12 f13 f14 f15 f16 f17
       f18 f19 f20 f21 f22 f23 f24 f25 f26 f27 f28 f29 f30 f31 _ f33 f34 f35
       f36 f37 f38 f39 f40 f41 f42 f43 f44 f45 f46 f47 f48 := a in
  mkAgent f1 f2 f3 f4 f5 f6 f7 f8 f9 f10 f11 f12 f13 f14 f15 f16 f17
       f18 f19 f20 f21 f22 f23 f24 f25 f26 f27 f28 f29 f30 f31 n f33 f34 f35
       f36 f37 f38 f39 f40 f41 f42 f43 f44 f45 f46 f47 f48.

Definition set_lifespan (n : N) (a : Agent) : Agent :=
  let 'mkAgent f1 f2 f3 f4 _ f6 f7 f8 f9 f10 f11 f12 f13 f14 f15 f16 f17
       f18 f19 f20 f21 f22 f23 f24 f25 f26 f27 f28 f29 f30 f31 f32 f33 f34 f35
       f36 f37 f38 f39 f40 f41 f42 f43 f44 f45 f46 f47 f48 := a in
  mkAgent f1 f2 f3 f4 n f6 f7 f8 f9 f10 f11 f12 f13 f14 f15 f16 f17
       f18 f19 f20 f21 f22 f23 f24 f25 f26 f27 f28 f29 f30 f31 f32 f33 f34 f35
       f36 f37 f38 f39 f40 f41 f42 f43 f44 f45 f46 f47 f48.

Definition set_location (r : ref) (a : Agent) : Agent :=
  let 'mkAgent f1 f2 f3 f4 f5 f6 f7 f8 f9 f10 f11 f12 f13 f14 f15 f16 f17
       f18 f19 f20 f21 f22 f23 f24 f25 f26 f27 f28 f29 f30 f31 f32 f33 f34 f35
       f36 _ f38 f39 f40 f41 f42 f43 f44 f45 f46 f47 f48 := a in
  mkAgent f1 f2 f3 f4 f5 f6 f7 f8 f9 f10 f11 f12 f13 f14 f15 f16 f17
       f18 f19 f20 f21 f22 f23 f24 f25 f26 f27 f28 f29 f30 f31 f32 f33 f34 f35
       f36 r f38 f39 f40 f41 f42 f43 f44 f45 f46 f47 f48.

(** *** applyForce *)

Definition applyForce (a : Agent) (force : ref) (h : Heap) : Heap :=
  let h := set_x (applyForceVector a) (get_x h force) h in
  let h := set_y (applyForceVector a) (get_y h force) h in
  let h := Vector_div (applyForceVector a) (mass a) h in
  Vector_add (acceleration a) (applyForceVector a) h.

(** *** seek, follow, flee *)

Definition seek (a : Agent) (target : Target) (h : Heap) : ref * Heap :=
  let w := world a in
  let '(desiredVelocity, h) :=
    VectorSub (target_location target) (location a) h in
  let distanceToTarget := Vector_mag h desiredVelocity in
  let h := Vector_normalize desiredVelocity h in
  let h :=
    if distanceToTarget [<] world_width w [/] #2 then
      let m := Utils_map distanceToTarget #0 (world_width w [/] #2)
                         #0 (maxSpeed a) in
      Vector_mult desiredVelocity m h
    else Vector_mult desiredVelocity (maxSpeed a) h in
  let h := Vector_sub desiredVelocity (velocity a) h in
  let h := Vector_limit desiredVelocity (maxSteeringForce a) h in
  (desiredVelocity, h).

Definition follow (a : Agent) (target : Target) (h : Heap) : ref * Heap :=
  let fdv := followDesiredVelocity a in
  let h := set_x fdv (get_x h (target_location target)) h in
  let h := set_y fdv (get_y h (target_location target)) h in
  let h := Vector_mult fdv (maxSpeed a) h in
  let h := Vector_sub fdv (velocity a) h in
  let h := Vector_limit fdv (maxSteeringForce a) h in
  (fdv, h).

Definition flee (a : Agent) (target : Target) (h : Heap) : ref * Heap :=
  let '(desiredVelocity, h) :=
    VectorSub (target_location target) (location a) h in
  let h := Vector_normalize desiredVelocity h in
  let h := Vector_mult desiredVelocity (nneg (maxSpeed a)) h in
  (desiredVelocity, h).

(** *** Flocking: separate, align, cohesion

    Each loop threads the store and the neighbour count. *)

Fixpoint separate_loop (a : Agent) (sum : ref) (els : list Element)
    (count : nat) (h : Heap) : nat * Heap :=
  match els with
  | [] => (count, h)
  | element :: els =>
      if String.eqb (className a) (el_className element)
         && negb (Nat.eqb (id a) (el_id element)) then
        let d := Vector_distance h (location a) (el_location element) in
        if (d [>] #0) && (d [<] desiredSeparation a) then
          let '(diff, h) := VectorSub (location a) (el_location element) h in
          let h := Vector_normalize diff h in
          let h := Vector_div diff d h in
          let h := Vector_add sum diff h in
          separate_loop a sum els (S count) h
        else separate_loop a sum els count h
      else separate_loop a sum els count h
  end.

Definition separate (a : Agent) (els : list Element) (h : Heap)
    : ref * Heap :=
  let h := set_x (separateSumForceVector a) #0 h in
  let h := set_y (separateSumForceVector a) #0 h in
  let sum := separateSumForceVector a in
  let '(count, h) := separate_loop a sum els 0 h in
  if (0 <? count)%nat then
    let h := Vector_div sum #(Z.of_nat count) h in
    let h := Vector_normalize sum h in
    let h := Vector_mult sum (maxSpeed a) h in
    let h := Vector_sub sum (velocity a) h in
    let h := Vector_limit sum (maxSteeringForce a) h in
    (sum, h)
  else (zeroForceVector a, h).

Fixpoint align_loop (a : Agent) (neighbordist : N) (sum : ref)
    (els : list Element) (count : nat) (h : Heap) : nat * Heap :=
  match els with
  | [] => (count, h)
  | element :: els =>
      let d := Vector_distance h (location a) (el_location element) in
      if (d [>] #0) && (d [<] neighbordist) then
        if String.eqb (className a) (el_className element)
           && negb (Nat.eqb (id a) (el_id element)) then
          let h := Vector_add sum (el_velocity element) h in
          align_loop a neighbordist sum els (S count) h
        else align_loop a neighbordist sum els count h
      else align_loop a neighbordist sum els count h
  end.

Definition align (a : Agent) (els : list Element) (h : Heap)
    : ref * Heap :=
  let neighbordist := width a [*] #2 in
  let h := set_x (alignSumForceVector a) #0 h in
  let h := set_y (alignSumForceVector a) #0 h in
  let sum := alignSumForceVector a in
  let '(count, h) := align_loop a neighbordist sum els 0 h in
  if (0 <? count)%nat then
    let h := Vector_div sum #(Z.of_nat count) h in
    let h := Vector_normalize sum h in
    let h := Vector_mult sum (maxSpeed a) h in
    let h := Vector_sub sum (velocity a) h in
    let h := Vector_limit sum (maxSteeringForce a) h in
    (sum, h)
  else (zeroForceVector a, h).

Fixpoint cohesion_loop (a : Agent) (neighbordist : N) (sum : ref)
    (els : list Element) (count : nat) (h : Heap) : nat * Heap :=
  match els with
  | [] => (count, h)
  | element :: els =>
      let d := Vector_distance h (location a) (el_location element) in
      if (d [>] #0) && (d [<] neighbordist) then
        if String.eqb (className a) (el_className element)
           && negb (Nat.eqb (id a) (el_id element)) then
          let h := Vector_add sum (el_location element) h in
          cohesion_loop a neighbordist sum els (S count) h
        else cohesion_loop a neighbordist sum els count h
      else cohesion_loop a neighbordist sum els count h
  end.

(** The source assigns [cohesionSumForceVector.y] twice and never [.x]. *)
Definition cohesion (a : Agent) (els : list Element) (h : Heap)
    : ref * Heap :=
  let neighbordist := #10 in
  let h := set_y (cohesionSumForceVector a) #0 h in
  let h := set_y (cohesionSumForceVector a) #0 h in
  let sum := cohesionSumForceVector a in
  let '(count, h) := cohesion_loop a neighbordist sum els 0 h in
  if (0 <? count)%nat then
    let h := Vector_div sum #(Z.of_nat count) h in
    let h := Vector_sub sum (location a) h in
    let h := Vector_normalize sum h in
    let h := Vector_mult sum (maxSpeed a) h in
    let h := Vector_sub sum (velocity a) h in
    let h := Vector_limit sum (maxSteeringForce a) h in
    (sum, h)
  else (zeroForceVector a, h).

(** [r.mult(n)] used as an expression: mutates and yields the receiver. *)
Definition mult_chain (n : N) (rh : ref * Heap) : ref * Heap :=
  (rh.1, Vector_mult rh.1 n rh.2).

Definition flock (a : Agent) (els : list Element) (h : Heap) : Heap :=
  let '(f, h) := mult_chain (separateStrength a) (separate a els h) in
  let h := applyForce a f h in
  let '(f, h) := mult_chain (alignStrength a) (align a els h) in
  let h := applyForce a f h in
  let '(f, h) := mult_chain (cohesionStrength a) (cohesion a els h) in
  applyForce a f h.

(** *** Proximity forces: drag, attract, isInside *)

Definition drag (a : Agent) (target : Liquid) (h : Heap) : ref * Heap :=
  let speed := Vector_mag h (velocity a) in
  let dragMagnitude := #(-1) [*] liq_c target [*] speed [*] speed in
  let '(drag, h) := Utils_clone (velocity a) h in
  let h := Vector_normalize drag h in
  let h := Vector_mult drag dragMagnitude h in
  (drag, h).

Definition attract (a : Agent) (attractor : Attractor) (h : Heap)
    : ref * Heap :=
  let '(force, h) := VectorSub (att_location attractor) (location a) h in
  let distance := Vector_mag h force in
  let distance :=
    Utils_constrain distance (width a [*] height a [/] #8)
                    (att_width attractor [*] att_height attractor) in
  let h := Vector_normalize force h in
  let strength :=
    (att_G attractor [*] att_mass attractor [*] mass a)
      [/] (distance [*] distance) in
  let h := Vector_mult force strength h in
  (force, h).

Definition isInside (a : Agent) (container : Liquid) (h : Heap) : bool :=
  let lx := get_x h (location a) in
  let ly := get_y h (location a) in
  let cx := get_x h (liq_location container) in
  let cy := get_y h (liq_location container) in
  (lx [+] width a [/] #2 [>] cx [-] liq_width container [/] #2)
  && (lx [-] width a [/] #2 [<] cx [+] liq_width container [/] #2)
  && (ly [+] height a [/] #2 [>] cy [-] liq_height container [/] #2)
  && (ly [-] height a [/] #2 [<] cy [+] liq_height container [/] #2).

(** *** Boundary policy: checkAvoidEdges, checkWorldEdges, checkCameraEdges *)

(** The bodies of the two [if (maxSpeed)] blocks of [checkAvoidEdges]:
    steer towards [maxSpeed_] on the x axis, resp. the y axis. *)
Definition avoid_steer_x (a : Agent) (maxSpeed_ : N) (h : Heap) : Heap :=
  let '(desiredVelocity, h) :=
    new_Vector maxSpeed_ (get_y h (velocity a)) h in
  let h := Vector_sub desiredVelocity (velocity a) h in
  let h := Vector_limit desiredVelocity (maxSteeringForce a) h in
  applyForce a desiredVelocity h.

Definition avoid_steer_y (a : Agent) (maxSpeed_ : N) (h : Heap) : Heap :=
  let '(desiredVelocity, h) :=
    new_Vector (get_x h (velocity a)) maxSpeed_ h in
  let h := Vector_sub desiredVelocity (velocity a) h in
  let h := Vector_limit desiredVelocity (maxSteeringForce a) h in
  applyForce a desiredVelocity h.

(** [if (maxSpeed)] on a local that may still be undefined ([None]). *)
Definition truthy_local (maxSpeed_ : option N) : option N :=
  match maxSpeed_ with
  | Some ms => if ntruthy ms then Some ms else None
  | None => None
  end.

(** The local [maxSpeed] starts undefined and is assigned by either test
    of an axis; nothing clears it between the two axes. *)
Definition checkAvoidEdges (a : Agent) (h : Heap) : Heap :=
  let maxSpeed_ : option N := None in
  let maxSpeed_ :=
    if get_x h (location a) [<] avoidEdgesStrength a then Some (maxSpeed a)
    else if get_x h (location a)
              [>] world_width (world a) [-] avoidEdgesStrength a
    then Some (nneg (maxSpeed a))
    else maxSpeed_ in
  let h :=
    match truthy_local maxSpeed_ with
    | Some ms => avoid_steer_x a ms h
    | None => h
    end in
  let maxSpeed_ :=
    if get_y h (location a) [<] avoidEdgesStrength a then Some (maxSpeed a)
    else if get_y h (location a)
              [>] world_height (world a) [-] avoidEdgesStrength a
    then Some (nneg (maxSpeed a))
    else maxSpeed_ in
  match truthy_local maxSpeed_ with
  | Some ms => avoid_steer_y a ms h
  | None => h
  end.

(** [if (this.controlCamera) { cameraDiffVector.x = ...; .y = ... }] after
    a correction on the x axis, resp. the y axis; [x0], [y0] are the
    coordinates on entry. *)
Definition camera_diff_x (a : Agent) (x0 : N) (h : Heap) : Heap :=
  if controlCamera a then
    let h := set_x (cameraDiffVector a) (x0 [-] get_x h (location a)) h in
    set_y (cameraDiffVector a) #0 h
  else h.

Definition camera_diff_y (a : Agent) (y0 : N) (h : Heap) : Heap :=
  if controlCamera a then
    let h := set_x (cameraDiffVector a) #0 h in
    set_y (cameraDiffVector a) (y0 [-] get_y h (location a)) h
  else h.

Definition checkWorldEdges (a : Agent) (w : World) (h : Heap)
    : bool * Heap :=
  let x0 := get_x h (location a) in
  let y0 := get_y h (location a) in
  let velocity_ := velocity a in
  let check := false in
  let '(check, h) :=
    if wrapEdges a then
      if get_x h (location a) [>] world_width w then
        let h := set_x (location a) #0 h in
        (true, camera_diff_x a x0 h)
      else if get_x h (location a) [<] #0 then
        let h := set_x (location a) (world_width w) h in
        (true, camera_diff_x a x0 h)
      else (check, h)
    else
      if get_x h (location a) [+] width a [/] #2 [>] world_width w then
        let h := set_x (location a) (world_width w [-] width a [/] #2) h in
        let h := set_x velocity_
                   (get_x h velocity_ [*] (#(-1) [*] bounciness a)) h in
        (true, camera_diff_x a x0 h)
      else if get_x h (location a) [<] width a [/] #2 then
        let h := set_x (location a) (width a [/] #2) h in
        let h := set_x velocity_
                   (get_x h velocity_ [*] (#(-1) [*] bounciness a)) h in
        (true, camera_diff_x a x0 h)
      else (check, h) in
  let '(check, h) :=
    if wrapEdges a then
      if get_y h (location a) [>] world_height w then
        let h := set_y (location a) #0 h in
        (true, camera_diff_y a y0 h)
      else if get_y h (location a) [<] #0 then
        let h := set_y (location a) (world_height w) h in
        (true, camera_diff_y a y0 h)
      else (check, h)
    else
      if get_y h (location a) [+] height a [/] #2 [>] world_height w then
        let h := set_y (location a) (world_height w [-] height a [/] #2) h in
        let h := set_y (velocity a)
                   (get_y h (velocity a) [*] (#(-1) [*] bounciness a)) h in
        (true, camera_diff_y a y0 h)
      else if get_y h (location a) [<] height a [/] #2 then
        let h := set_y (location a) (height a [/] #2) h in
        let h := set_y (velocity a)
                   (get_y h (velocity a) [*] (#(-1) [*] bounciness a)) h in
        (true, camera_diff_y a y0 h)
      else (check, h) in
  let h :=
    if check && controlCamera a
    then Vector_add (world_location w) (cameraDiffVector a) h
    else h in
  (check, h).

Definition checkCameraEdges (a : Agent) (h : Heap) : Heap :=
  let h := set_x (checkCameraEdgesVector a) (get_x h (velocity a)) h in
  let h := set_y (checkCameraEdgesVector a) (get_y h (velocity a)) h in
  let h := Vector_mult (checkCameraEdgesVector a) #(-1) h in
  Vector_add (world_location (world a)) (checkCameraEdgesVector a) h.

(** *** getLocation, getVelocity *)

(** What the two getters can return. *)
Inductive Returned :=
  | RetVector (r : ref)
  | RetNumber (n : N)
  | RetUndefined.

(** [!type] for an optional string argument. *)
Definition not_type (type : option string) : bool :=
  match type with
  | None => true
  | Some t => String.eqb t ""
  end.

Definition type_is (type : option string) (t : string) : bool :=
  match type with
  | None => false
  | Some t' => String.eqb t' t
  end.

Definition getLocation (a : Agent) (type : option string) (h : Heap)
    : Returned * Heap :=
  if not_type type then
    let '(r, h) :=
      new_Vector (get_x h (location a)) (get_y h (location a)) h in
    (RetVector r, h)
  else if type_is type "x" then (RetNumber (get_x h (location a)), h)
  else if type_is type "y" then (RetNumber (get_y h (location a)), h)
  else (RetUndefined, h).

Definition getVelocity (a : Agent) (type : option string) (h : Heap)
    : Returned * Heap :=
  if not_type type then
    let '(r, h) :=
      new_Vector (get_x h (location a)) (get_y h (location a)) h in
    (RetVector r, h)
  else if type_is type "x" then (RetNumber (get_x h (velocity a)), h)
  else if type_is type "y" then (RetNumber (get_y h (velocity a)), h)
  else (RetUndefined, h).

(* ================================================================== *)
(** ** step *)

(** Functions stored on the agent take the agent itself, so they are kept
    beside the record of its fields: the two hooks and the sensors. *)
Definition Hook := Agent -> Heap -> Agent * Heap.

(** Modelled from the spec: [Sensor] is defined outside the sources
    (section 3): an offset, a location the agent writes, a flag and
    [getActivationForce(context)], which yields a vector. *)
Record Sensor := mkSensor {
  sensor_offsetDistance : N;
  sensor_offsetAngle    : N;
  sensor_location       : ref;
  sensor_activated      : bool;
  getActivationForce    : Agent -> Heap -> ref * Heap
}.

Record Callbacks := mkCallbacks {
  sensors    : list Sensor;
  beforeStep : option Hook;
  afterStep  : option Hook
}.

(** What a step does to the outside, in order: calls of the hooks and
    assignments to [liquid.el.className]. *)
Inductive HookName := BeforeStep | AfterStep.

Inductive Event :=
  | HookCalled (which : HookName)
  | LiquidClassName (liquid_id : nat) (cls : string).

Record State := mkState {
  this : Agent;
  heap : Heap;
  log  : list Event
}.

(** [if (this.hook) { this.hook.apply(this); }] *)
Definition run_hook (which : HookName) (hook : option Hook) (s : State)
    : State :=
  match hook with
  | Some f =>
      let '(a, h) := f (this s) (heap s) in
      mkState a h (log s ++ [HookCalled which])
  | None => s
  end.

Fixpoint apply_liquids (a : Agent) (ls : list Liquid) (h : Heap)
    (out : list Event) : Heap * list Event :=
  match ls with
  | [] => (h, out)
  | l :: ls =>
      if negb (Nat.eqb (id a) (liq_id l)) && isInside a l h then
        let '(force, h) := drag a l h in
        let h := applyForce a force h in
        let className_ := (liq_className l ++ " activated")%string in
        apply_liquids a ls h (out ++ [LiquidClassName (liq_id l) className_])
      else apply_liquids a ls h out
  end.

(** The loop over [exports.repellers] and the one over
    [exports.attractors]. *)
Fixpoint apply_attractors (a : Agent) (ats : list Attractor) (h : Heap)
    : Heap :=
  match ats with
  | [] => h
  | at_ :: ats =>
      if negb (Nat.eqb (id a) (att_id at_)) then
        let '(force, h) := attract a at_ h in
        apply_attractors a ats (applyForce a force h)
      else apply_attractors a ats h
  end.

Fixpoint apply_sensors (a : Agent) (ss : list Sensor)
    (sensorActivated : bool) (h : Heap) : bool * Heap :=
  match ss with
  | [] => (sensorActivated, h)
  | sensor :: ss =>
      let r := sensor_offsetDistance sensor in
      let theta :=
        Utils_degreesToRadians (angle a [+] sensor_offsetAngle sensor) in
      let x := r [*] ncos theta in
      let y := r [*] nsin theta in
      let h := set_x (sensor_location sensor) (get_x h (location a)) h in
      let h := set_y (sensor_location sensor) (get_y h (location a)) h in
      let '(v, h) := new_Vector x y h in
      let h := Vector_add (sensor_location sensor) v h in
      if sensor_activated sensor then
        let '(force, h) := getActivationForce sensor a h in
        apply_sensors a ss true (applyForce a force h)
      else apply_sensors a ss sensorActivated h
  end.

Definition apply_motor (a : Agent) (sensorActivated : bool) (h : Heap)
    : Heap :=
  if negb sensorActivated && ntruthy (motorSpeed a) then
    let '(dir, h) := Utils_clone (velocity a) h in
    let h := Vector_normalize dir h in
    let h :=
      if Vector_mag h (velocity a) [>] motorSpeed a
      then Vector_mult dir (nneg (motorSpeed a)) h
      else Vector_mult dir (motorSpeed a) h in
    applyForce a dir h
  else h.

Definition apply_friction (w : World) (a : Agent) (h : Heap) : Heap :=
  match world_c w with
  | Some c =>
      if ntruthy c then
        let '(friction, h) := Utils_clone (velocity a) h in
        let h := Vector_mult friction #(-1) h in
        let h := Vector_normalize friction h in
        let h := Vector_mult friction c h in
        applyForce a friction h
      else h
  | None => h
  end.

Definition apply_followMouse (env : Env) (a : Agent) (h : Heap) : Heap :=
  if followMouse a then
    let '(loc, h) := new_Vector (mouse_loc env).1 (mouse_loc env).2 h in
    let t := mkTarget loc in
    let '(f, h) := seek a t h in
    applyForce a f h
  else h.

Definition apply_seekTarget (a : Agent) (h : Heap) : Heap :=
  match seekTarget a with
  | Some t => let '(f, h) := seek a t h in applyForce a f h
  | None => h
  end.

(** [field[col]] and [field[col][row]]: an index that is no integer (NaN,
    an infinity) finds nothing. *)
Definition field_col (ff : FlowField) (col : option Z)
    : option (gmap Z ref) :=
  col ≫= fun c => ff_field ff !! c.

Definition field_cell (column : gmap Z ref) (row : option Z) : option ref :=
  row ≫= fun r => column !! r.

Definition apply_flowField (a : Agent) (h : Heap) : Heap :=
  match flowField a with
  | Some ff =>
      let res := ff_resolution ff in
      let col := nfloor (get_x h (location a) [/] res) in
      let row := nfloor (get_y h (location a) [/] res) in
      match field_col ff col with
      | Some column =>
          let h :=
            match field_cell column row with
            | Some loc =>
                let h := set_x (followTargetVector a) (get_x h loc) h in
                set_y (followTargetVector a) (get_y h loc) h
            | None =>
                let h :=
                  set_x (followTargetVector a) (get_x h (location a)) h in
                set_y (followTargetVector a) (get_y h (location a)) h
            end in
          let target := mkTarget (followTargetVector a) in
          let '(f, h) := follow a target h in
          applyForce a f h
      | None => h
      end
  | None => h
  end.

(** Everything between [APPLY FORCES -- start] and [end -- APPLY FORCES];
    [w] is the local [world] of [step]. *)
Definition apply_forces (env : Env) (cb : Callbacks) (w : World)
    (a : Agent) (h : Heap) (out : list Event) : Heap * list Event :=
  let '(h, out) := apply_liquids a (liquids env) h out in
  let h := apply_attractors a (repellers env) h in
  let h := apply_attractors a (attractors env) h in
  let '(sensorActivated, h) := apply_sensors a (sensors cb) false h in
  let h := apply_motor a sensorActivated h in
  let h := apply_friction w a h in
  let h := applyForce a (world_wind w) h in
  let h := applyForce a (world_gravity w) h in
  let h := apply_followMouse env a h in
  let h := apply_seekTarget a h in
  let h := apply_flowField a h in
  let h := if flocking a then flock a (elements env) h else h in
  let h := if avoidEdges a then checkAvoidEdges a h else h in
  (h, out).

(** Velocity and location are advanced, the angle follows. *)
Definition integrate (a : Agent) (h : Heap) : Agent * Heap :=
  let h := Vector_add (velocity a) (acceleration a) h in
  let h :=
    if ntruthy (maxSpeed a) then Vector_limit (velocity a) (maxSpeed a) h
    else h in
  let h :=
    if ntruthy (minSpeed a) then Vector_limitLow (velocity a) (minSpeed a) h
    else h in
  let h := Vector_add (location a) (velocity a) h in
  let a :=
    if pointToDirection a then
      if Vector_mag h (velocity a) [>] #1 [/] #10 then
        set_angle
          (Utils_radiansToDegrees
             (natan2 (get_y h (velocity a)) (get_x h (velocity a)))) a
      else a
    else a in
  (a, h).

Definition apply_parent (a : Agent) (h : Heap) : Agent * Heap :=
  match parent a with
  | Some p =>
      if ntruthy (offsetDistance a) then
        let r := offsetDistance a in
        let theta :=
          Utils_degreesToRadians (parent_angle p [+] offsetAngle a) in
        let x := r [*] ncos theta in
        let y := r [*] nsin theta in
        let h := set_x (location a) (get_x h (parent_location p)) h in
        let h := set_y (location a) (get_y h (parent_location p)) h in
        let '(v, h) := new_Vector x y h in
        (a, Vector_add (location a) v h)
      else (set_location (parent_location p) a, h)
  | None => (a, h)
  end.

Definition step (env : Env) (cb : Callbacks) (s : State) : State :=
  let world_ := world (this s) in
  let s := run_hook BeforeStep (beforeStep cb) s in
  let a := this s in
  if negb (isStatic a) && negb (isPressed a) then
    let '(h, out) := apply_forces env cb world_ a (heap s) (log s) in
    let '(a, h) := integrate a h in
    let h := if controlCamera a then checkCameraEdges a h else h in
    let h :=
      if checkEdges a || wrapEdges a
      then (checkWorldEdges a world_ h).2
      else h in
    let '(a, h) := apply_parent a h in
    let s := run_hook AfterStep (afterStep cb) (mkState a h out) in
    let a := this s in
    let h := Vector_mult (acceleration a) #0 (heap s) in
    let a :=
      if lifespan a [>] #0 then set_lifespan (lifespan a [-] #1) a else a in
    mkState a h (log s)
  else s.

(** [n] frames. *)
Fixpoint steps (n : nat) (env : Env) (cb : Callbacks) (s : State) : State :=
  match n with
  | O => s
  | S n => steps n env cb (step env cb s)
  end.

(* ================================================================== *)
(** ** The constructor *)

(** Option objects are dynamically typed. *)
Inductive JSValue :=
  | VUndefined
  | VNull
  | VBool (b : bool)
  | VNum (n : N)
  | VStr (s : string)
  | VObj (handle : nat)
  | VFun (handle : nat).

Definition ToBoolean (v : JSValue) : bool :=
  match v with
  | VUndefined | VNull => false
  | VBool b => b
  | VNum n => ntruthy n
  | VStr s => negb (String.eqb s "")
  | VObj _ | VFun _ => true
  end.

(** [a || b] *)
Definition js_or (a b : JSValue) : JSValue := if ToBoolean a then a else b.

(** [v === 0] and [v === false] *)
Definition is_zero (v : JSValue) : bool :=
  match v with
  | VNum n => neqb n #0
  | _ => false
  end.

Definition is_false (v : JSValue) : bool :=
  match v with
  | VBool false => true
  | _ => false
  end.

(** [v === 0 ? 0 : v || d] *)
Definition zero_or (v d : JSValue) : JSValue :=
  if is_zero v then VNum #0 else js_or v d.

(** [v === false ? false : v || true] *)
Definition false_or_true (v : JSValue) : JSValue :=
  if is_false v then VBool false else js_or v (VBool true).

(** [options.name]: a missing property reads as undefined. *)
Definition prop (options : gmap string JSValue) (name : string) : JSValue :=
  default VUndefined (options !! name).

(** What [exports.Element.call(this, options)] leaves on [this], as far as
    the rest of the constructor reads it. *)
Record ElementPart := mkElementPart {
  elem_width : N;
  elem_el    : nat
}.

(** The properties assigned by [Agent], and the listeners it registers on
    [this.el]. *)
Record AgentProps := mkAgentProps {
  p_mass               : JSValue;
  p_maxSpeed           : JSValue;
  p_minSpeed           : JSValue;
  p_motorSpeed         : JSValue;
  p_lifespan           : JSValue;
  p_offsetDistance     : JSValue;
  p_offsetAngle        : JSValue;
  p_pointToDirection   : JSValue;
  p_followMouse        : JSValue;
  p_seekTarget         : JSValue;
  p_followTarget       : JSValue;
  p_isStatic           : JSValue;
  p_draggable          : JSValue;
  p_checkEdges         : JSValue;
  p_wrapEdges          : JSValue;
  p_avoidEdges         : JSValue;
  p_avoidEdgesStrength : JSValue;
  p_bounciness         : JSValue;
  p_maxSteeringForce   : JSValue;
  p_turningRadius      : JSValue;
  p_thrust             : JSValue;
  p_flocking           : JSValue;
  p_desiredSeparation  : JSValue;
  p_separateStrength   : JSValue;
  p_alignStrength      : JSValue;
  p_cohesionStrength   : JSValue;
  p_flowField          : JSValue;
  p_beforeStep         : JSValue;
  p_afterStep          : JSValue;
  p_listeners          : list string
}.

(** [function Agent(opt_options)].  [Element_call] stands for the
    inherited constructor, which is not among the sources; nothing else in
    the body can throw. *)
Definition Agent_constructor
    (Element_call : gmap string JSValue -> Completion ElementPart)
    (opt_options : option (gmap string JSValue))
    : Completion AgentProps :=
  let options := default ∅ opt_options in
  match Element_call options with
  | Throw e => Throw e
  | Normal base =>
      let o := prop options in
      let draggable_ := VBool (ToBoolean (o "draggable")) in
      Normal {|
        p_mass := js_or (o "mass") (VNum #10);
        p_maxSpeed := zero_or (o "maxSpeed") (VNum #10);
        p_minSpeed := js_or (o "minSpeed") (VNum #0);
        p_motorSpeed := js_or (o "motorSpeed") (VNum #0);
        p_lifespan := zero_or (o "lifespan") (VNum #(-1));
        p_offsetDistance := zero_or (o "offsetDistance") (VNum #30);
        p_offsetAngle := js_or (o "offsetAngle") (VNum #0);
        p_pointToDirection := false_or_true (o "pointToDirection");
        p_followMouse := VBool (ToBoolean (o "followMouse"));
        p_seekTarget := js_or (o "seekTarget") VNull;
        p_followTarget := js_or (o "followTarget") VNull;
        p_isStatic := VBool (ToBoolean (o "isStatic"));
        p_draggable := draggable_;
        p_checkEdges := false_or_true (o "checkEdges");
        p_wrapEdges := VBool (ToBoolean (o "wrapEdges"));
        p_avoidEdges := VBool (ToBoolean (o "avoidEdges"));
        p_avoidEdgesStrength := zero_or (o "avoidEdgesStrength") (VNum #200);
        p_bounciness := zero_or (o "bounciness") (VNum (#3 [/] #4));
        p_maxSteeringForce := zero_or (o "maxSteeringForce") (VNum #100);
        p_turningRadius := zero_or (o "turningRadius") (VNum #90);
        p_thrust := zero_or (o "thrust") (VNum #5);
        p_flocking := VBool (ToBoolean (o "flocking"));
        p_desiredSeparation :=
          zero_or (o "desiredSeparation") (VNum (elem_width base [*] #2));
        p_separateStrength :=
          zero_or (o "separateStrength") (VNum (#3 [/] #10));
        p_alignStrength := zero_or (o "alignStrength") (VNum (#2 [/] #10));
        p_cohesionStrength :=
          zero_or (o "cohesionStrength") (VNum (#1 [/] #10));
        p_flowField := js_or (o "flowField") VNull;
        p_beforeStep := js_or (o "beforeStep") VUndefined;
        p_afterStep := js_or (o "afterStep") VUndefined;
        p_listeners :=
          if ToBoolean draggable_
          then ["mouseover"; "mousedown"; "mousemove"; "mouseup"; "mouseout"]
          else []
      |}
  end.

(** The properties an agent gets when no option is passed: the literals of
    the constructor. *)
Definition Agent_defaults (base : ElementPart) : AgentProps :=
  {| p_mass := VNum #10; p_maxSpeed := VNum #10; p_minSpeed := VNum #0;
     p_motorSpeed := VNum #0; p_lifespan := VNum #(-1);
     p_offsetDistance := VNum #30; p_offsetAngle := VNum #0;
     p_pointToDirection := VBool true; p_followMouse := VBool false;
     p_seekTarget := VNull; p_followTarget := VNull;
     p_isStatic := VBool false; p_draggable := VBool false;
     p_checkEdges := VBool true; p_wrapEdges := VBool false;
     p_avoidEdges := VBool false; p_avoidEdgesStrength := VNum #200;
     p_bounciness := VNum (#3 [/] #4); p_maxSteeringForce := VNum #100;
     p_turningRadius := VNum #90; p_thrust := VNum #5;
     p_flocking := VBool false;
     p_desiredSeparation := VNum (elem_width base [*] #2);
     p_separateStrength := VNum (#3 [/] #10);
     p_alignStrength := VNum (#2 [/] #10);
     p_cohesionStrength := VNum (#1 [/] #10);
     p_flowField := VNull; p_beforeStep := VUndefined;
     p_afterStep := VUndefined; p_listeners := [] |}.

End Model.

Arguments Vector : clear implicits.
Arguments World : clear implicits.
Arguments Liquid : clear implicits.
Arguments Attractor : clear implicits.
Arguments Parent : clear implicits.
Arguments FlowField : clear implicits.
Arguments Env : clear implicits.
Arguments Agent : clear implicits.
Arguments Returned : clear implicits.
Arguments Hook : clear implicits.
Arguments Sensor : clear implicits.
Arguments Callbacks : clear implicits.
Arguments State : clear implicits.
Arguments JSValue : clear implicits.
Arguments ElementPart : clear implicits.
Arguments AgentProps : clear implicits.

(* ================================================================== *)
(** ** binary64 *)

Definition float_of_Z (z : Z) : float :=
  match z with
  | Z0 => PrimFloat.zero
  | Zpos _ => PrimFloat.of_uint63 (Uint63.of_Z z)
  | Zneg p => PrimFloat.opp (PrimFloat.of_uint63 (Uint63.of_Z (Zpos p)))
  end.

(** [Math.floor] as a property index: the integer at or below [x]; NaN and
    the infinities index nothing. *)
Definition float_floor (x : float) : option Z :=
  match Prim2SF x with
  | S754_zero _ => Some 0%Z
  | S754_finite s m e => Some (Z.shiftl (if s then Zneg m else Zpos m) e)
  | S754_infinity _ | S754_nan => None
  end.

Definition float_truthy (x : float) : bool :=
  negb (PrimFloat.eqb x PrimFloat.zero) && PrimFloat.eqb x x.

#[export] Instance float_Number : Number float := {|
  nlit := float_of_Z;
  nadd := PrimFloat.add;
  nsub := PrimFloat.sub;
  nmul := PrimFloat.mul;
  ndiv := PrimFloat.div;
  nneg := PrimFloat.opp;
  nsqrt := PrimFloat.sqrt;
  nltb := PrimFloat.ltb;
  neqb := PrimFloat.eqb;
  ntruthy := float_truthy;
  nfloor := float_floor
|}.

(* ================================================================== *)
(** ** Real numbers *)

(** Division by zero has no counterpart here: the statements made over [R]
    divide by non-zero numbers only. *)

Definition Rltb (a b : R) : bool := if Rlt_dec a b then true else false.
Definition Reqb (a b : R) : bool := if Req_dec_T a b then true else false.

(** The usual two-argument arctangent. *)
Definition Ratan2 (y x : R) : R :=
  if Rlt_dec 0 x then atan (y / x)
  else if Rlt_dec x 0 then
    if Rlt_dec y 0 then atan (y / x) - PI else atan (y / x) + PI
  else if Rlt_dec 0 y then PI / 2
  else if Rlt_dec y 0 then - (PI / 2)
  else 0.

#[export] Instance R_Number : Number R := {|
  nlit := IZR;
  nadd := Rplus;
  nsub := Rminus;
  nmul := Rmult;
  ndiv := Rdiv;
  nneg := Ropp;
  nsqrt := R_sqrt.sqrt;
  nltb := Rltb;
  neqb := Reqb;
  ntruthy := fun x => negb (Reqb x 0);
  nfloor := fun x => Some (Int_part x)
|}.

#[export] Instance R_MathLib : MathLib R := {|
  ncos := cos;
  nsin := sin;
  natan2 := Ratan2;
  npi := PI
|}.

(* ================================================================== *)
(** ** Fixtures *)

Section Fixtures.

Context {N : Type} `{Number N}.
Local Open Scope num_scope.

(** A store holding the given vectors at references 1, 2, 3, ... *)
Fixpoint store_from (r : ref) (vs : list (N * N)) : gmap ref (Vector N) :=
  match vs with
  | [] => ∅
  | (x, y) :: vs => <[r := mkVector x y]> (store_from (Pos.succ r) vs)
  end.

(** A world whose gravity, wind and camera offset are the vectors at 1, 2
    and 3. *)
Definition fixture_world (w h : N) : World N :=
  {| world_width := w; world_height := h;
     world_gravity := 1; world_wind := 2;
     world_c := None; world_location := 3 |}%positive.

(** An agent as the constructor leaves it when given only the listed
    options; its vectors are the twelve objects from reference [r] on:
    location, velocity, acceleration, then the scratch vectors. *)
Definition fixture_agent (w : World N) (id_ : nat) (r : ref)
    (width_ height_ mass_ : N) (isStatic_ : bool)
    (flowField_ : option (FlowField N)) : Agent N :=
  {| mass := mass_; maxSpeed := #10; minSpeed := #0; motorSpeed := #0;
     lifespan := #(-1); offsetDistance := #30; offsetAngle := #0;
     pointToDirection := true; followMouse := false;
     seekTarget := None; followTarget := None;
     isStatic := isStatic_; draggable := false;
     checkEdges := true; wrapEdges := false; avoidEdges := false;
     avoidEdgesStrength := #200; bounciness := #3 [/] #4;
     maxSteeringForce := #100; turningRadius := #90; thrust := #5;
     flocking := false; desiredSeparation := width_ [*] #2;
     separateStrength := #3 [/] #10; alignStrength := #2 [/] #10;
     cohesionStrength := #1 [/] #10; flowField := flowField_;
     id := id_; className := "agent"; width := width_; height := height_;
     angle := #0; isPressed := false; controlCamera := false;
     parent := None; world := w;
     location := r; velocity := r + 1; acceleration := r + 2;
     applyForceVector := r + 3; followTargetVector := r + 4;
     followDesiredVelocity := r + 5; separateSumForceVector := r + 6;
     alignSumForceVector := r + 7; cohesionSumForceVector := r + 8;
     zeroForceVector := r + 9; cameraDiffVector := r + 10;
     checkCameraEdgesVector := r + 11 |}%positive.

(** The store of the fixtures: objects 1 to 3 belong to the world, 4 to 15
    to the agent, whose location and velocity are given; 16 and 17 are the
    location and the velocity of a second object.  [scratch] is what
    [cohesionSumForceVector] holds. *)
Definition fixture_store (loc vel scratch other : N * N)
    : gmap ref (Vector N) :=
  store_from 1%positive
    (repeat (#0, #0) 3 ++ [loc; vel] ++ repeat (#0, #0) 6 ++ [scratch]
       ++ repeat (#0, #0) 3 ++ [other; (#0, #0)]).

(** A second element of the agent's class, at the object 16. *)
Definition fixture_neighbour : Element :=
  {| el_id := 2; el_className := "agent";
     el_location := 16; el_velocity := 17 |}%positive.

(** An attractor at the object 16: 10 by 10, [G = 1], [mass = 100]. *)
Definition fixture_attractor : Attractor N :=
  {| att_id := 2; att_location := 16%positive;
     att_width := #10; att_height := #10; att_G := #1; att_mass := #100 |}.

(** No liquids, attractors, repellers or other elements. *)
Definition fixture_env : Env N :=
  {| liquids := []; repellers := []; attractors := []; elements := [];
     mouse_loc := (#0, #0) |}.

End Fixtures.

(** Fixtures over binary64: an 800 by 600 world and an agent of identifier
    1, 10 high and of mass 10. *)
Definition fl_world : World float :=
  fixture_world 800%float 600%float.

Definition fl_agent (width_ : float) : Agent float :=
  fixture_agent fl_world 1 4%positive width_ 10%float 10%float false None.

Definition fl_store (loc vel : float * float) : gmap ref (Vector float) :=
  fixture_store loc vel (0, 0)%float (0, 0)%float.

(** An [Element] constructor that accepts whatever it is given. *)
Definition fl_Element_call (options : gmap string (JSValue float))
    : Completion (ElementPart float) :=
  Normal {| elem_width := 10%float; elem_el := 0 |}.

(** The same over the reals. *)
Definition re_world : World R :=
  fixture_world 800%R 600%R.

Definition re_agent (width_ mass_ : R) (isStatic_ : bool)
    (flowField_ : option (FlowField R)) : Agent R :=
  fixture_agent re_world 1 4%positive width_ 10%R mass_ isStatic_ flowField_.

Definition re_store (loc vel : R * R) : gmap ref (Vector R) :=
  fixture_store loc vel (0, 0)%R (0, 0)%R.

(** A static agent with both hooks set: [beforeStep] changes nothing,
    [afterStep] would turn the agent to 90 degrees. *)
Definition re_before : Hook R := fun a h => (a, h).
Definition re_after : Hook R := fun a h => (set_angle 90%R a, h).

Definition re_callbacks_both : Callbacks R :=
  {| sensors := []; beforeStep := Some re_before;
     afterStep := Some re_after |}.

Definition re_callbacks_none : Callbacks R :=
  {| sensors := []; beforeStep := None; afterStep := None |}.

Definition re_state_static : State R :=
  {| this := re_agent 10 10 true None;
     heap := re_store (100, 100) (1, 1);
     log := [] |}%R.

(** A flow field of resolution 10 with the single cell [field[0][0]]. *)
Definition re_flowField : FlowField R :=
  {| ff_resolution := 10%R;
     ff_field := {[ 0%Z := {[ 0%Z := 1%positive ]} ]} |}.

(* ================================================================== *)
(** ** Footprints *)

Section Footprints.

Context {N : Type}.

(** [h'] differs from [h] at most in the object [r]. *)
Definition writes_only (r : ref) (h h' : gmap ref (Vector N)) : Prop :=
  forall r', r' ≠ r -> h' !! r' = h !! r'.

(** Every object of [h] is in [h'], unchanged. *)
Definition extends (h h' : gmap ref (Vector N)) : Prop :=
  forall r, r ∈ dom h -> h' !! r = h !! r.

(** No element of the agent's class other than the agent itself. *)
Definition no_peers (a : Agent N) (els : list Element) : Prop :=
  Forall (fun e => className a ≠ el_className e \/ id a = el_id e) els.

End Footprints.

(* ================================================================== *)
(** ** More fixtures *)

Section MoreFixtures.

Context {N : Type} `{Number N}.
Local Open Scope num_scope.

(** [fixture_agent] of width and height 10, mass 10 and identifier 1 in
    the world [w], with the listed fields set. *)
Definition fixture_agent_with (w : World N) (wrapEdges_ : bool)
    (maxSpeed_ motorSpeed_ lifespan_ offsetDistance_ : N)
    (parent_ : option (Parent N)) : Agent N :=
  {| mass := #10; maxSpeed := maxSpeed_; minSpeed := #0;
     motorSpeed := motorSpeed_;
     lifespan := lifespan_; offsetDistance := offsetDistance_;
     offsetAngle := #0;
     pointToDirection := true; followMouse := false;
     seekTarget := None; followTarget := None;
     isStatic := false; draggable := false;
     checkEdges := true; wrapEdges := wrapEdges_; avoidEdges := false;
     avoidEdgesStrength := #200; bounciness := #3 [/] #4;
     maxSteeringForce := #100; turningRadius := #90; thrust := #5;
     flocking := false; desiredSeparation := #10 [*] #2;
     separateStrength := #3 [/] #10; alignStrength := #2 [/] #10;
     cohesionStrength := #1 [/] #10; flowField := None;
     id := 1; className := "agent"; width := #10; height := #10;
     angle := #0; isPressed := false; controlCamera := false;
     parent := parent_; world := w;
     location := 4; velocity := 5; acceleration := 6;
     applyForceVector := 7; followTargetVector := 8;
     followDesiredVelocity := 9; separateSumForceVector := 10;
     alignSumForceVector := 11; cohesionSumForceVector := 12;
     zeroForceVector := 13; cameraDiffVector := 14;
     checkCameraEdgesVector := 15 |}%positive.

(** The world of the fixtures with friction [c]. *)
Definition fixture_world_friction (c : N) : World N :=
  {| world_width := #800; world_height := #600;
     world_gravity := 1; world_wind := 2;
     world_c := Some c; world_location := 3 |}%positive.

(** A liquid 10 by 10 at the object 16, and an element of another class
    there. *)
Definition fixture_liquid : Liquid N :=
  {| liq_id := 2; liq_className := "liquid"; liq_location := 16%positive;
     liq_width := #10; liq_height := #10; liq_c := #1 |}.

Definition fixture_stranger : Element :=
  {| el_id := 2; el_className := "walker";
     el_location := 16; el_velocity := 17 |}%positive.

(** A target and a parent at the object 16. *)
Definition fixture_target : Target := mkTarget 16%positive.

Definition fixture_parent : Parent N :=
  {| parent_location := 16%positive; parent_angle := #0 |}.

End MoreFixtures.

(** An [Element] constructor over the reals that accepts whatever it is
    given. *)
Definition re_Element_call (options : gmap string (JSValue R))
    : Completion (ElementPart R) :=
  Normal {| elem_width := 10%R; elem_el := 0 |}.

(** An active agent without hooks, with the given lifespan. *)
Definition re_state_active (lifespan_ : R) : State R :=
  {| this := fixture_agent_with re_world false 10%R 0%R lifespan_ 30%R None;
     heap := re_store (100, 100) (1, 1);
     log := [] |}%R.

(* ================================================================== *)
(** * Properties *)

Section StoreLemmas.

Context {N : Type} `{Number N}.
Local Open Scope num_scope.
Implicit Types (h : gmap ref (Vector N)) (r o : ref) (n : N).

(** Field reads after field writes: a write to [x] never disturbs a [y],
    whatever the aliasing. *)
Lemma get_x_set_x h r r' n :
  get_x (set_x r n h) r' = if decide (r = r') then n else get_x h r'.
Proof.
  unfold get_x, set_x. rewrite lookup_total_insert.
  by destruct (decide (r = r')).
Qed.

Lemma get_y_set_x h r r' n : get_y (set_x r n h) r' = get_y h r'.
Proof.
  unfold get_y, set_x. rewrite lookup_total_insert.
  by destruct (decide (r = r')) as [->|].
Qed.

Lemma get_x_set_y h r r' n : get_x (set_y r n h) r' = get_x h r'.
Proof.
  unfold get_x, set_y. rewrite lookup_total_insert.
  by destruct (decide (r = r')) as [->|].
Qed.

Lemma get_y_set_y h r r' n :
  get_y (set_y r n h) r' = if decide (r = r') then n else get_y h r'.
Proof.
  unfold get_y, set_y. rewrite lookup_total_insert.
  by destruct (decide (r = r')).
Qed.

(** Writes at one object leave every other object alone. *)
Lemma set_x_other h r r' n : r ≠ r' -> set_x r n h !!! r' = h !!! r'.
Proof. intros. unfold set_x. by rewrite lookup_total_insert_ne. Qed.

Lemma set_y_other h r r' n : r ≠ r' -> set_y r n h !!! r' = h !!! r'.
Proof. intros. unfold set_y. by rewrite lookup_total_insert_ne. Qed.

Lemma Vector_add_other h r o r' :
  r ≠ r' -> Vector_add r o h !!! r' = h !!! r'.
Proof.
  intros. unfold Vector_add. cbn zeta.
  by rewrite set_y_other, set_x_other.
Qed.

Lemma Vector_div_other h r n r' :
  r ≠ r' -> Vector_div r n h !!! r' = h !!! r'.
Proof.
  intros. unfold Vector_div. cbn zeta.
  by rewrite set_y_other, set_x_other.
Qed.

(** A new vector is a new object, and holds what it was given. *)
Lemma new_Vector_fresh h x y : (new_Vector x y h).1 ∉ dom h.
Proof. apply is_fresh. Qed.

Lemma new_Vector_read h x y :
  (new_Vector x y h).2 !!! (new_Vector x y h).1 = mkVector x y.
Proof. cbn. apply lookup_total_insert_eq. Qed.

Lemma new_Vector_old h x y r :
  r ∈ dom h -> (new_Vector x y h).2 !! r = h !! r.
Proof.
  intros Hr. cbn. apply lookup_insert_ne.
  intros <-. by apply (is_fresh (dom h)).
Qed.

End StoreLemmas.

(** Reads through any stack of field writes, deciding each comparison of
    references from the hypotheses. *)
Ltac store_simpl :=
  repeat first
    [ rewrite get_x_set_y | rewrite get_y_set_x
    | rewrite get_x_set_x | rewrite get_y_set_y ];
  repeat case_decide; subst; try done; try congruence.


Section AgentProperties.

Context {N : Type} `{Number N} `{MathLib N}.
Local Open Scope num_scope.
Implicit Types (h : gmap ref (Vector N)) (a : Agent N) (s : State N).

(** ** applyForce *)

(** What [applyForce] leaves in its two objects. *)
Lemma applyForce_acceleration a f h :
  f ≠ applyForceVector a ->
  acceleration a ≠ applyForceVector a ->
  let h' := applyForce a f h in
  get_x h' (acceleration a)
    = get_x h (acceleration a) [+] get_x h f [/] mass a
  /\ get_y h' (acceleration a)
    = get_y h (acceleration a) [+] get_y h f [/] mass a.
Proof.
  intros Hf Hacc. unfold applyForce, Vector_add, Vector_div. cbn zeta.
  split; store_simpl.
Qed.

Lemma applyForce_other a f h r :
  r ≠ acceleration a -> r ≠ applyForceVector a ->
  applyForce a f h !!! r = h !!! r.
Proof.
  intros Hacc Hafv. unfold applyForce. cbn zeta.
  rewrite Vector_add_other, Vector_div_other, set_y_other, set_x_other;
    done.
Qed.

(** C9. [applyForce(f)] adds [f / mass], componentwise, to the
    acceleration; the location, the velocity and the argument [f] hold
    afterwards what they held before, and only the acceleration and the
    scratch vector [applyForceVector] are written.  The agent's own
    vectors are distinct objects and [f] is neither its acceleration nor
    its scratch vector; the angle is a field of the agent, which
    [applyForce] does not return, so it cannot change. *)
Theorem applyForce_frame a f h :
  NoDup [location a; velocity a; acceleration a; applyForceVector a] ->
  f ≠ acceleration a ->
  f ≠ applyForceVector a ->
  let h' := applyForce a f h in
  get_x h' (acceleration a)
    = get_x h (acceleration a) [+] get_x h f [/] mass a
  /\ get_y h' (acceleration a)
    = get_y h (acceleration a) [+] get_y h f [/] mass a
  /\ h' !!! location a = h !!! location a
  /\ h' !!! velocity a = h !!! velocity a
  /\ h' !!! f = h !!! f
  /\ forall r, r ≠ acceleration a -> r ≠ applyForceVector a ->
       h' !!! r = h !!! r.
Proof.
  intros Hnd Hf1 Hf2 h'.
  rewrite !NoDup_cons, !not_elem_of_cons in Hnd.
  destruct Hnd as ((_ & Hl1 & Hl2 & _) & (Hv1 & Hv2 & _) & (Ha & _) & _).
  destruct (applyForce_acceleration a f h Hf2 Ha) as [Hx Hy].
  repeat split; try done; subst h'; by apply applyForce_other.
Qed.

(** ** checkAvoidEdges *)

(** Near the left edge and out of range of the top and bottom edges, the
    y axis is steered all the same, towards the [maxSpeed] left over from
    the x axis. *)
Lemma checkAvoidEdges_stale_maxSpeed a h :
  (get_x h (location a) [<] avoidEdgesStrength a) = true ->
  ntruthy (maxSpeed a) = true ->
  let h1 := avoid_steer_x a (maxSpeed a) h in
  (get_y h1 (location a) [<] avoidEdgesStrength a) = false ->
  (get_y h1 (location a)
     [>] world_height (world a) [-] avoidEdgesStrength a) = false ->
  checkAvoidEdges a h = avoid_steer_y a (maxSpeed a) h1.
Proof.
  intros Hx Hms h1 Hy1 Hy2. unfold checkAvoidEdges. cbn zeta.
  rewrite Hx. cbn [truthy_local]. rewrite Hms. fold h1.
  rewrite Hy1, Hy2. cbn [truthy_local]. by rewrite Hms.
Qed.

(** ** step on a frozen agent *)

Lemma step_frozen env cb s :
  let s1 := run_hook BeforeStep (beforeStep cb) s in
  isStatic (this s1) || isPressed (this s1) = true ->
  step env cb s = s1.
Proof.
  intros s1 Hfrozen. unfold step. fold s1.
  destruct (isStatic (this s1)), (isPressed (this s1)); done.
Qed.

(** C6. With [isStatic] set and no hooks, any number of calls of [step]
    returns the very state it was given: agent, store of vectors (so the
    location, the velocity and the acceleration) and log. *)
Theorem step_static_idempotent env cb s (n : nat) :
  isStatic (this s) = true ->
  beforeStep cb = None ->
  afterStep cb = None ->
  steps n env cb s = s
  /\ heap (steps n env cb s) !!! location (this (steps n env cb s))
       = heap s !!! location (this s)
  /\ heap (steps n env cb s) !!! velocity (this (steps n env cb s))
       = heap s !!! velocity (this s)
  /\ heap (steps n env cb s) !!! acceleration (this (steps n env cb s))
       = heap s !!! acceleration (this s).
Proof.
  intros Hstatic Hb Ha.
  assert (Hn : steps n env cb s = s).
  { induction n as [|n IH]; [done|]. cbn.
    rewrite step_frozen; rewrite Hb; cbn; [done|].
    by rewrite Hstatic. }
  by rewrite Hn.
Qed.

(** C2, as the code has it.  When the agent is frozen once [beforeStep]
    has run, [step] is that call and nothing more: [afterStep] lies inside
    the branch of the active agent and is not called. *)
Theorem step_frozen_calls_beforeStep_only env cb s before after :
  beforeStep cb = Some before ->
  afterStep cb = Some after ->
  isStatic (before (this s) (heap s)).1
    || isPressed (before (this s) (heap s)).1 = true ->
  step env cb s
    = mkState (before (this s) (heap s)).1 (before (this s) (heap s)).2
              (log s ++ [HookCalled BeforeStep])
  /\ log (step env cb s) = log s ++ [HookCalled BeforeStep].
Proof.
  intros Hb Ha Hfrozen.
  assert (Hs : step env cb s
    = mkState (before (this s) (heap s)).1 (before (this s) (heap s)).2
              (log s ++ [HookCalled BeforeStep])).
  { rewrite step_frozen; rewrite Hb; cbn;
      destruct (before (this s) (heap s)); done. }
  by rewrite Hs.
Qed.

(** ** The flow field *)

(** C10. With a flow field set and no column at
    [floor(location.x / resolution)], the flow-field block of [step] does
    nothing: no vector is written, so nothing reaches the acceleration and
    the scratch target is not pointed at the agent's own location. *)
Theorem apply_flowField_missing_column a h ff :
  flowField a = Some ff ->
  field_col ff (nfloor (get_x h (location a) [/] ff_resolution ff)) = None ->
  apply_flowField a h = h.
Proof.
  intros Hff Hcol. unfold apply_flowField. rewrite Hff. cbn zeta.
  by rewrite Hcol.
Qed.

(** By contrast, a column without the row makes the agent follow its own
    location. *)
Lemma apply_flowField_missing_row a h ff column :
  flowField a = Some ff ->
  field_col ff (nfloor (get_x h (location a) [/] ff_resolution ff))
    = Some column ->
  field_cell column (nfloor (get_y h (location a) [/] ff_resolution ff))
    = None ->
  apply_flowField a h
  = let h1 := set_x (followTargetVector a) (get_x h (location a)) h in
    let h2 := set_y (followTargetVector a) (get_y h1 (location a)) h1 in
    let fh := follow a (mkTarget (followTargetVector a)) h2 in
    applyForce a fh.1 fh.2.
Proof.
  intros Hff Hcol Hrow. unfold apply_flowField. rewrite Hff. cbn zeta.
  rewrite Hcol, Hrow. by destruct (follow _ _ _).
Qed.

End AgentProperties.

Section DynamicProperties.

Context {N : Type} `{Number N}.
Local Open Scope num_scope.
Implicit Types (h : gmap ref (Vector N)) (a : Agent N).

(** ** The getters *)

(** Called without an axis, [getVelocity] allocates a vector and fills it
    from the location. *)
Lemma getVelocity_no_axis a h :
  getVelocity a None h
  = (RetVector (fresh (dom h)),
     <[fresh (dom h) :=
         mkVector (get_x h (location a)) (get_y h (location a))]> h).
Proof. reflexivity. Qed.

Lemma getVelocity_x a h :
  getVelocity a (Some "x") h = (RetNumber (get_x h (velocity a)), h).
Proof. reflexivity. Qed.

Lemma getVelocity_y a h :
  getVelocity a (Some "y") h = (RetNumber (get_y h (velocity a)), h).
Proof. reflexivity. Qed.

(** ** The scratch sums of flocking *)

Lemma reset_scratch h (r : ref) (v : Vector N) (n1 n2 : N) :
  set_y r n2 (set_x r n1 (<[r := v]> h)) = <[r := mkVector n1 n2]> h.
Proof.
  unfold set_y, set_x, get_x. rewrite lookup_total_insert_eq.
  by rewrite !insert_insert_eq.
Qed.

(** [separate] and [align] clear both fields of their sum first, so what
    the sum held before has no influence on the result. *)
Lemma separate_forgets_scratch a els h (v v' : Vector N) :
  separate a els (<[separateSumForceVector a := v]> h)
  = separate a els (<[separateSumForceVector a := v']> h).
Proof. unfold separate. cbn zeta. by rewrite !reset_scratch. Qed.

Lemma align_forgets_scratch a els h (v v' : Vector N) :
  align a els (<[alignSumForceVector a := v]> h)
  = align a els (<[alignSumForceVector a := v']> h).
Proof. unfold align. cbn zeta. by rewrite !reset_scratch. Qed.

(** ** The constructor *)

Lemma prop_empty (name : string) :
  prop (N:=N) ∅ name = VUndefined.
Proof. unfold prop. by rewrite lookup_empty. Qed.

(** C5, as the code has it.  [Agent] checks none of its options.  Once
    the inherited constructor has accepted them, construction succeeds:
    with no option given every property takes the constructor's
    default, and an option of the wrong type, such as a string for
    [mass], is stored as it came. *)
Theorem Agent_constructor_never_rejects
    (Element_call : gmap string (JSValue N) -> Completion (ElementPart N))
    (opt_options : option (gmap string (JSValue N)))
    (base : ElementPart N) :
  Element_call (default ∅ opt_options) = Normal base ->
  exists p : AgentProps N,
    Agent_constructor Element_call opt_options = Normal p
    /\ (default ∅ opt_options = ∅ -> p = Agent_defaults base)
    /\ (forall t : string,
          default ∅ opt_options !! "mass" = Some (VStr t) ->
          t ≠ "" -> p_mass p = VStr t).
Proof.
  intros Hbase. unfold Agent_constructor. cbn zeta. rewrite Hbase.
  eexists. split; [reflexivity|]. split.
  - intros ->. unfold Agent_defaults, zero_or, false_or_true, js_or.
    rewrite !prop_empty. reflexivity.
  - intros t Ht Hne. cbn. unfold prop. rewrite Ht. cbn.
    unfold js_or. cbn.
    destruct (String.eqb_spec t ""); [done|reflexivity].
Qed.

End DynamicProperties.

(* ================================================================== *)
(** * The engine on binary64 *)

Section Binary64.

Local Open Scope float_scope.

(** C1. An agent at (1, 2) moving with velocity (3, 4): [getVelocity()]
    returns a new object, and it holds (1, 2), the location, where a copy
    of the velocity would hold (3, 4). *)
Theorem getVelocity_returns_location :
  let a := fl_agent 10%float in
  let h := fl_store (1, 2) (3, 4) in
  h !! location a = Some (mkVector 1 2)
  /\ h !! velocity a = Some (mkVector 3 4)
  /\ (getVelocity a None h).1 = RetVector 18%positive
  /\ h !! 18%positive = None
  /\ (getVelocity a None h).2 !! 18%positive = Some (mkVector 1 2)
  /\ (getVelocity a (Some "x") h).1 = RetNumber 3
  /\ (getVelocity a (Some "y") h).1 = RetNumber 4.
Proof. vm_compute. repeat split; reflexivity. Qed.

(** C3. An agent at (10, 300) in the 800 by 600 world, at rest, with
    [avoidEdgesStrength] 200: x is within range of the left edge, y is at
    least 200 away from both horizontal edges.  [checkAvoidEdges] applies
    the x force (10, 0) and then, the local [maxSpeed] still being set, a
    y force (0, 10) as well: with mass 10 the acceleration ends at (1, 1),
    not (1, 0). *)
Theorem checkAvoidEdges_applies_y_force_out_of_range :
  let a := fl_agent 10%float in
  let h := fl_store (10, 300) (0, 0) in
  let h' := checkAvoidEdges a h in
  PrimFloat.ltb (get_x h (location a)) (avoidEdgesStrength a) = true
  /\ PrimFloat.ltb (get_y h (location a)) (avoidEdgesStrength a) = false
  /\ PrimFloat.ltb (world_height (world a) - avoidEdgesStrength a)
                   (get_y h (location a)) = false
  /\ h !!! acceleration a = mkVector 0%float 0%float
  /\ h' !!! acceleration a = mkVector 1%float 1%float.
Proof. vm_compute. repeat split; reflexivity. Qed.

(** C4. One neighbour at (0, 4).  Starting from a clean scratch sum
    [cohesion] returns (0, 10); starting from a scratch sum holding (3, 0)
    it returns (6, 8): the x field of the earlier content is still in the
    sum. *)
Theorem cohesion_leaks_scratch_x :
  let a := fl_agent 10%float in
  let clean := cohesion a [fixture_neighbour]
               (fixture_store (0, 0) (0, 0) (0, 0) (0, 4)) in
  let dirty := cohesion a [fixture_neighbour]
               (fixture_store (0, 0) (0, 0) (3, 0) (0, 4)) in
  clean.1 = cohesionSumForceVector a
  /\ dirty.1 = cohesionSumForceVector a
  /\ clean.2 !!! clean.1 = mkVector 0%float 10%float
  /\ dirty.2 !!! dirty.1 = mkVector 6%float 8%float.
Proof. vm_compute. repeat split; reflexivity. Qed.

(** The scenarios of C7 and C8 in binary64 arithmetic: the values are
    exact there too. *)
Example checkWorldEdges_bounce_left_binary64 :
  let a := fl_agent 20 in
  let r := checkWorldEdges a fl_world (fl_store (0, 50) (-5, 0)) in
  r.1 = true
  /\ r.2 !!! location a = mkVector 10 50
  /\ get_x r.2 (velocity a) = 3.75.
Proof. vm_compute. repeat split; reflexivity. Qed.

Example attract_at_distance_20_binary64 :
  let a := fixture_agent fl_world 1 4%positive 10 10 1 false None in
  let r := attract a fixture_attractor
             (fixture_store (100, 100) (0, 0) (0, 0) (120, 100)) in
  r.2 !!! r.1 = mkVector 0.25 0
  /\ Vector_mag r.2 r.1 = 0.25.
Proof. vm_compute. repeat split; reflexivity. Qed.

(** C5, counterexample: options whose [mass] is a string, and no options
    at all, both construct an agent. *)
Lemma Agent_constructor_accepts_malformed :
  Agent_constructor fl_Element_call None
    = Normal (Agent_defaults {| elem_width := 10%float; elem_el := 0 |})
  /\ p_mass <$> (match Agent_constructor fl_Element_call
                         (Some {[ "mass" := VStr "heavy" ]}) with
                 | Normal p => Some p
                 | Throw _ => None
                 end)
     = Some (VStr "heavy").
Proof. vm_compute. split; reflexivity. Qed.

End Binary64.

(* ================================================================== *)
(** * The engine on the reals *)

Section Reals.

Local Open Scope R_scope.
Implicit Types (h : gmap ref (Vector R)) (a : Agent R).

Lemma Rltb_true (x y : R) : x < y -> Rltb x y = true.
Proof. intros. unfold Rltb. destruct (Rlt_dec x y); [done|lra]. Qed.

Lemma Rltb_false (x y : R) : y <= x -> Rltb x y = false.
Proof. intros. unfold Rltb. destruct (Rlt_dec x y); [lra|done]. Qed.

Lemma Reqb_false (x y : R) : x <> y -> Reqb x y = false.
Proof. intros. unfold Reqb. destruct (Req_dec_T x y); [lra|done]. Qed.

Lemma get_x_insert h (r : ref) (v : Vector R) :
  get_x (<[r := v]> h) r = vec_x v.
Proof. unfold get_x. by rewrite lookup_total_insert_eq. Qed.

Lemma get_y_insert h (r : ref) (v : Vector R) :
  get_y (<[r := v]> h) r = vec_y v.
Proof. unfold get_y. by rewrite lookup_total_insert_eq. Qed.

(** C7. The bounce off the left edge.  The agent is 20 wide, sits at
    (0, 50) and moves left at 5 with bounciness 0.75 and [wrapEdges] off,
    in a world at least as wide as half the agent.  [checkWorldEdges]
    reports a crossing and leaves [location.x = 10], [velocity.x = 3.75].
    The agent's location, velocity and camera scratch vector and the
    world's location are distinct objects. *)
Theorem checkWorldEdges_bounce_left a (w : World R) h :
  NoDup [location a; velocity a; cameraDiffVector a; world_location w] ->
  h !!! location a = mkVector 0 50 ->
  get_x h (velocity a) = -5 ->
  width a = 20 ->
  bounciness a = 0.75 ->
  wrapEdges a = false ->
  width a / 2 <= world_width w ->
  (checkWorldEdges a w h).1 = true
  /\ get_x (checkWorldEdges a w h).2 (location a) = 10
  /\ get_x (checkWorldEdges a w h).2 (velocity a) = 3.75.
Proof.
  intros Hnd Hloc Hvx Hw Hb Hwrap Hfit.
  rewrite !NoDup_cons, !not_elem_of_cons in Hnd.
  destruct Hnd as ((Hlv & Hlc & Hlw & _) & (Hvc & Hvw & _) & (Hcw & _) & _).
  assert (Hx : get_x h (location a) = 0) by (unfold get_x; by rewrite Hloc).
  unfold checkWorldEdges. cbn zeta. rewrite Hwrap.
  cbn [nltb nadd nsub nmul ndiv nlit R_Number].
  rewrite Hx.
  rewrite (Rltb_false (world_width w)) by lra.
  rewrite (Rltb_true 0) by lra.
  unfold camera_diff_x, camera_diff_y, Vector_add. cbn zeta.
  destruct (controlCamera a);
    repeat match goal with
           | |- context [Rltb ?x ?y] => destruct (Rltb x y)
           end;
    cbn [fst snd andb]; (split; [done|]); split; store_simpl;
    rewrite ?Hvx, ?Hw, ?Hb; lra.
Qed.

(** A distance is the root of a sum of squares. *)
Lemma sqrt_eq_square (x d : R) : 0 <= x -> 0 <= d -> sqrt x = d -> x = d * d.
Proof. intros Hx Hd <-. by rewrite sqrt_sqrt. Qed.


(** ** The theorems at concrete inputs *)

Lemma checkWorldEdges_bounce_left_witness :
  (checkWorldEdges (re_agent 20 10 false None) re_world
     (re_store (0, 50) (-5, 0))).1 = true
  /\ get_x (checkWorldEdges (re_agent 20 10 false None) re_world
              (re_store (0, 50) (-5, 0))).2
           (location (re_agent 20 10 false None)) = 10
  /\ get_x (checkWorldEdges (re_agent 20 10 false None) re_world
              (re_store (0, 50) (-5, 0))).2
           (velocity (re_agent 20 10 false None)) = 3.75.
Proof.
  apply (checkWorldEdges_bounce_left (re_agent 20 10 false None) re_world
           (re_store (0, 50) (-5, 0))).
  - apply (bool_decide_unpack _). vm_compute. exact I.
  - reflexivity.
  - reflexivity.
  - reflexivity.
  - cbn. lra.
  - reflexivity.
  - cbn. lra.
Defined.


Lemma Int_part_100_10 : Int_part (100 / 10) = 10%Z.
Proof.
  unfold Int_part. rewrite <- (up_tech (100 / 10) 10).
  - reflexivity.
  - lra.
  - change (10 + 1)%Z with 11%Z. lra.
Defined.

Lemma apply_flowField_missing_column_witness :
  apply_flowField (re_agent 10 10 false (Some re_flowField))
                  (re_store (100, 100) (1, 1))
  = re_store (100, 100) (1, 1).
Proof.
  apply (apply_flowField_missing_column
           (re_agent 10 10 false (Some re_flowField))
           (re_store (100, 100) (1, 1)) re_flowField).
  - reflexivity.
  - change (field_col re_flowField (Some (Int_part (100 / 10))) = None).
    rewrite Int_part_100_10. reflexivity.
Defined.

Lemma step_static_idempotent_witness :
  steps 3 fixture_env re_callbacks_none re_state_static = re_state_static.
Proof.
  apply (step_static_idempotent fixture_env re_callbacks_none re_state_static 3);
    reflexivity.
Defined.

Lemma step_frozen_calls_beforeStep_only_witness :
  log (step fixture_env re_callbacks_both re_state_static)
  = [HookCalled BeforeStep].
Proof.
  apply (step_frozen_calls_beforeStep_only fixture_env re_callbacks_both
           re_state_static re_before re_after); reflexivity.
Defined.

(** C2, counterexample: the agent is static and has both hooks, yet a
    call of [step] calls [beforeStep] alone; the angle, which [afterStep]
    would set to 90, is still 0. *)
Lemma step_frozen_skips_afterStep :
  isStatic (this re_state_static) = true
  /\ is_Some (beforeStep re_callbacks_both)
  /\ is_Some (afterStep re_callbacks_both)
  /\ log (step fixture_env re_callbacks_both re_state_static)
     = [HookCalled BeforeStep]
  /\ (HookCalled AfterStep
        ∉ log (step fixture_env re_callbacks_both re_state_static))
  /\ angle (this (step fixture_env re_callbacks_both re_state_static)) = 0.
Proof.
  assert (Hlog : log (step fixture_env re_callbacks_both re_state_static)
                 = [HookCalled BeforeStep]) by reflexivity.
  repeat split; try done; try (eexists; reflexivity).
  rewrite Hlog. intros Hin. apply list_elem_of_singleton in Hin. discriminate.
Qed.

End Reals.

(* ================================================================== *)
(** * The remaining theorems at concrete inputs *)

Lemma applyForce_frame_witness :
  let a := fl_agent 10%float in
  let h := fl_store (1, 2)%float (3, 4)%float in
  get_x (applyForce a (velocity a) h) (acceleration a) = (3 / 10)%float
  /\ get_y (applyForce a (velocity a) h) (acceleration a) = (4 / 10)%float
  /\ applyForce a (velocity a) h !!! location a = mkVector 1%float 2%float
  /\ applyForce a (velocity a) h !!! velocity a = mkVector 3%float 4%float.
Proof.
  intros a h.
  destruct (applyForce_frame a (velocity a) h) as (Hx & Hy & Hl & Hv & _).
  - apply (bool_decide_unpack _). vm_compute. exact I.
  - discriminate.
  - discriminate.
  - rewrite Hx, Hy, Hl, Hv. vm_compute. repeat split; reflexivity.
Defined.

Lemma Agent_constructor_never_rejects_witness :
  exists p : AgentProps float,
    Agent_constructor fl_Element_call (Some {[ "mass" := VStr "heavy" ]})
      = Normal p
    /\ p_mass p = VStr "heavy".
Proof.
  destruct (Agent_constructor_never_rejects fl_Element_call
              (Some {[ "mass" := VStr "heavy" ]})
              {| elem_width := 10%float; elem_el := 0 |} eq_refl)
    as (p & Hp & _ & Hmass).
  exists p. split; [exact Hp|].
  apply Hmass; [reflexivity|discriminate].
Defined.

(* ================================================================== *)
(** * Further properties of the engine *)

Section Footprint.

Context {N : Type} `{Number N}.
Local Open Scope num_scope.
Implicit Types (h : gmap ref (Vector N)) (a : Agent N) (r : ref).

Lemma writes_only_refl r h : writes_only r h h.
Proof. by intros r' _. Qed.

Lemma writes_only_set_x r n h0 h :
  writes_only r h0 h -> writes_only r h0 (set_x r n h).
Proof.
  intros Hw r' Hr. unfold set_x. rewrite lookup_insert_ne by done.
  by apply Hw.
Qed.

Lemma writes_only_set_y r n h0 h :
  writes_only r h0 h -> writes_only r h0 (set_y r n h).
Proof.
  intros Hw r' Hr. unfold set_y. rewrite lookup_insert_ne by done.
  by apply Hw.
Qed.

Lemma writes_only_add r o h0 h :
  writes_only r h0 h -> writes_only r h0 (Vector_add r o h).
Proof. intros. by apply writes_only_set_y, writes_only_set_x. Qed.

Lemma writes_only_sub r o h0 h :
  writes_only r h0 h -> writes_only r h0 (Vector_sub r o h).
Proof. intros. by apply writes_only_set_y, writes_only_set_x. Qed.

Lemma writes_only_mult r n h0 h :
  writes_only r h0 h -> writes_only r h0 (Vector_mult r n h).
Proof. intros. by apply writes_only_set_y, writes_only_set_x. Qed.

Lemma writes_only_div r n h0 h :
  writes_only r h0 h -> writes_only r h0 (Vector_div r n h).
Proof. intros. by apply writes_only_set_y, writes_only_set_x. Qed.

Lemma writes_only_normalize r h0 h :
  writes_only r h0 h -> writes_only r h0 (Vector_normalize r h).
Proof.
  intros. unfold Vector_normalize.
  destruct (neqb _ _); [done|]. by apply writes_only_div.
Qed.

Lemma writes_only_limit r n h0 h :
  writes_only r h0 h -> writes_only r h0 (Vector_limit r n h).
Proof.
  intros. unfold Vector_limit.
  destruct (nltb _ _); [|done].
  by apply writes_only_mult, writes_only_normalize.
Qed.

Lemma writes_only_limitLow r n h0 h :
  writes_only r h0 h -> writes_only r h0 (Vector_limitLow r n h).
Proof.
  intros. unfold Vector_limitLow.
  destruct (nltb _ _); [|done].
  by apply writes_only_mult, writes_only_normalize.
Qed.

Lemma writes_only_new x y h :
  writes_only (new_Vector x y h).1 h (new_Vector x y h).2.
Proof. intros r' Hr. cbn in *. by rewrite lookup_insert_ne. Qed.

(** Writing only a new object extends the store. *)
Lemma writes_only_fresh_extends h h' :
  writes_only (fresh (dom h)) h h' -> extends h h'.
Proof.
  intros Hw r Hr. apply Hw. intros ->. by apply (is_fresh (dom h)).
Qed.

Lemma extends_refl h : extends h h.
Proof. by intros r _. Qed.

Lemma extends_dom h h' : extends h h' -> dom h ⊆ dom h'.
Proof.
  intros He r Hr. apply elem_of_dom. rewrite (He r Hr).
  by apply elem_of_dom.
Qed.

Lemma extends_trans h1 h2 h3 :
  extends h1 h2 -> extends h2 h3 -> extends h1 h3.
Proof.
  intros H12 H23 r Hr. rewrite H23; [by apply H12|].
  by apply (extends_dom h1 h2).
Qed.

Lemma extends_read h h' r :
  extends h h' -> r ∈ dom h -> h' !!! r = h !!! r.
Proof.
  intros He Hr. rewrite !lookup_total_alt. by rewrite (He r Hr).
Qed.

End Footprint.

Ltac footprint :=
  repeat first
    [ apply writes_only_refl
    | apply writes_only_limit | apply writes_only_limitLow
    | apply writes_only_normalize | apply writes_only_mult
    | apply writes_only_div | apply writes_only_sub | apply writes_only_add
    | apply writes_only_set_x | apply writes_only_set_y
    | apply writes_only_new ].

Section Steering.

Context {N : Type} `{Number N}.
Local Open Scope num_scope.
Implicit Types (h : gmap ref (Vector N)) (a : Agent N) (r : ref).

(** X1. [seek] computes in a vector of its own: the result is a new
    object, and the target, the agent's location and velocity and every
    other vector of the store are left as they were. *)
Theorem seek_extends a (target : Target) h :
  ((seek a target h).1 ∉ dom h) /\ extends h (seek a target h).2.
Proof.
  unfold seek, VectorSub. cbn zeta.
  destruct (new_Vector _ _ h) as [dv h1] eqn:Hnew.
  assert (Hdv : dv = fresh (dom h)) by (by inversion Hnew).
  assert (Hw : writes_only dv h h1).
  { replace dv with (new_Vector
      (get_x h (target_location target) [-] get_x h (location a))
      (get_y h (target_location target) [-] get_y h (location a)) h).1
      by (by rewrite Hnew).
    replace h1 with (new_Vector
      (get_x h (target_location target) [-] get_x h (location a))
      (get_y h (target_location target) [-] get_y h (location a)) h).2
      by (by rewrite Hnew).
    apply writes_only_new. }
  cbn [fst snd]. split; [subst dv; apply is_fresh|].
  apply writes_only_fresh_extends. rewrite <- Hdv.
  destruct (nltb _ _); footprint; done.
Qed.

Lemma new_Vector_writes_fresh x y h dv h1 :
  new_Vector x y h = (dv, h1) ->
  dv = fresh (dom h) /\ writes_only dv h h1.
Proof.
  intros Hnew. split; [by inversion Hnew|].
  change dv with (dv, h1).1. change h1 with (dv, h1).2 at 2.
  rewrite <- Hnew. apply writes_only_new.
Qed.

Lemma flee_extends a (target : Target) h :
  (flee a target h).1 = fresh (dom h) /\ extends h (flee a target h).2.
Proof.
  unfold flee, VectorSub. cbn zeta.
  destruct (new_Vector _ _ h) as [dv h1] eqn:Hnew.
  apply new_Vector_writes_fresh in Hnew as [-> Hw]. cbn [fst snd].
  split; [done|]. apply writes_only_fresh_extends. by footprint.
Qed.

Lemma drag_extends a (target : Liquid N) h :
  (drag a target h).1 = fresh (dom h) /\ extends h (drag a target h).2.
Proof.
  unfold drag, Utils_clone. cbn zeta.
  destruct (new_Vector _ _ h) as [dv h1] eqn:Hnew.
  apply new_Vector_writes_fresh in Hnew as [-> Hw]. cbn [fst snd].
  split; [done|]. apply writes_only_fresh_extends. by footprint.
Qed.

Lemma attract_extends a (attractor : Attractor N) h :
  (attract a attractor h).1 = fresh (dom h)
  /\ extends h (attract a attractor h).2.
Proof.
  unfold attract, VectorSub. cbn zeta.
  destruct (new_Vector _ _ h) as [dv h1] eqn:Hnew.
  apply new_Vector_writes_fresh in Hnew as [-> Hw]. cbn [fst snd].
  split; [done|]. apply writes_only_fresh_extends. by footprint.
Qed.

Lemma follow_writes_scratch a (target : Target) h :
  (follow a target h).1 = followDesiredVelocity a
  /\ writes_only (followDesiredVelocity a) h (follow a target h).2.
Proof. unfold follow. cbn. split; [done|]. by footprint. Qed.

(** Reading a vector back after one of its own methods. *)
Lemma get_mult r n h :
  get_x (Vector_mult r n h) r = get_x h r [*] n
  /\ get_y (Vector_mult r n h) r = get_y h r [*] n.
Proof. unfold Vector_mult. cbn zeta. split; store_simpl. Qed.

Lemma get_div r n h :
  get_x (Vector_div r n h) r = get_x h r [/] n
  /\ get_y (Vector_div r n h) r = get_y h r [/] n.
Proof. unfold Vector_div. cbn zeta. split; store_simpl. Qed.

Lemma get_sub r o h :
  get_x (Vector_sub r o h) r = get_x h r [-] get_x h o
  /\ get_y (Vector_sub r o h) r = get_y h r [-] get_y h o.
Proof. unfold Vector_sub. cbn zeta. split; store_simpl. Qed.

Lemma get_add r o h :
  get_x (Vector_add r o h) r = get_x h r [+] get_x h o
  /\ get_y (Vector_add r o h) r = get_y h r [+] get_y h o.
Proof. unfold Vector_add. cbn zeta. split; store_simpl. Qed.

Lemma get_new x y h :
  get_x (new_Vector x y h).2 (new_Vector x y h).1 = x
  /\ get_y (new_Vector x y h).2 (new_Vector x y h).1 = y.
Proof.
  unfold get_x, get_y. cbn. by rewrite lookup_total_insert_eq.
Qed.

(** A method of [r] is invisible at any other object. *)
Lemma writes_only_get r r' h h' :
  writes_only r h h' -> r' ≠ r ->
  get_x h' r' = get_x h r' /\ get_y h' r' = get_y h r'.
Proof.
  intros Hw Hr. unfold get_x, get_y. rewrite !lookup_total_alt.
  by rewrite (Hw r' Hr).
Qed.

(** ** The boundary check *)

(** X8. When [checkWorldEdges] reports no crossing it has changed
    nothing: no location, no velocity, no camera offset. *)
Theorem checkWorldEdges_false_unchanged a (w : World N) h :
  (checkWorldEdges a w h).1 = false ->
  (checkWorldEdges a w h).2 = h.
Proof.
  unfold checkWorldEdges. cbn zeta.
  destruct (wrapEdges a);
    repeat match goal with
           | |- context [if nltb ?x ?y then _ else _] =>
               destruct (nltb x y)
           end;
    cbn [fst snd andb]; intros Hcheck; done.
Qed.

(** ** The loops over the registries *)

(** X15. An agent listed among the attractors (or the repellers) exerts no
    force on itself: the loop gives the same result as over the list with
    the agent's own entries removed. *)
Theorem apply_attractors_skips_self a (ats : list (Attractor N)) h :
  apply_attractors a ats h
  = apply_attractors a
      (filter (fun t => id a ≠ att_id t) ats) h.
Proof.
  revert h. induction ats as [|t ats IH]; intros h; [done|].
  rewrite filter_cons. cbn [apply_attractors].
  destruct (decide (id a ≠ att_id t)) as [Hne|Heq].
  - cbn [apply_attractors].
    destruct (Nat.eqb_spec (id a) (att_id t)); [done|]. cbn [negb].
    destruct (attract a t h). apply IH.
  - destruct (Nat.eqb_spec (id a) (att_id t)) as [_|Hne]; [|done].
    cbn [negb]. apply IH.
Qed.

(** X16. Liquids that do not overlap the agent, and the agent itself when
    it is a liquid, exert no drag and are not marked as activated: the
    store and the log come back as they were. *)
Theorem apply_liquids_none a (ls : list (Liquid N)) h (out : list Event) :
  Forall (fun l => id a = liq_id l \/ isInside a l h = false) ls ->
  apply_liquids a ls h out = (h, out).
Proof.
  induction 1 as [|l ls Hl _ IH]; [done|]. cbn [apply_liquids].
  destruct Hl as [Hid|Hout].
  - rewrite Hid, Nat.eqb_refl. cbn [negb andb]. apply IH.
  - rewrite Hout, andb_false_r. apply IH.
Qed.

(** ** Flocking without neighbours *)

Lemma peer_test_false a (e : Element) :
  className a ≠ el_className e \/ id a = el_id e ->
  String.eqb (className a) (el_className e)
    && negb (Nat.eqb (id a) (el_id e)) = false.
Proof.
  intros [Hc|Hi].
  - by destruct (String.eqb_spec (className a) (el_className e)).
  - rewrite Hi, Nat.eqb_refl. apply andb_false_r.
Qed.

Lemma separate_loop_no_peers a sum els (count : nat) h :
  no_peers a els -> separate_loop a sum els count h = (count, h).
Proof.
  induction 1 as [|e els He _ IH]; [done|]. cbn [separate_loop].
  by rewrite (peer_test_false a e He).
Qed.

Lemma align_loop_no_peers a nd sum els (count : nat) h :
  no_peers a els -> align_loop a nd sum els count h = (count, h).
Proof.
  induction 1 as [|e els He _ IH]; [done|]. cbn [align_loop]. cbn zeta.
  rewrite (peer_test_false a e He). by destruct (_ && _).
Qed.

Lemma cohesion_loop_no_peers a nd sum els (count : nat) h :
  no_peers a els -> cohesion_loop a nd sum els count h = (count, h).
Proof.
  induction 1 as [|e els He _ IH]; [done|]. cbn [cohesion_loop]. cbn zeta.
  rewrite (peer_test_false a e He). by destruct (_ && _).
Qed.

(** X17. Among elements of other classes (and itself) an agent has no
    neighbours: [separate], [align] and [cohesion] all return the shared
    [zeroForceVector], whatever the distances, having written nothing but
    their own scratch sums. *)
Theorem flocking_no_peers a (els : list Element) h :
  Forall (fun e => className a ≠ el_className e \/ id a = el_id e) els ->
  (separate a els h).1 = zeroForceVector a
  /\ writes_only (separateSumForceVector a) h (separate a els h).2
  /\ (align a els h).1 = zeroForceVector a
  /\ writes_only (alignSumForceVector a) h (align a els h).2
  /\ (cohesion a els h).1 = zeroForceVector a
  /\ writes_only (cohesionSumForceVector a) h (cohesion a els h).2.
Proof.
  intros Hno. unfold separate, align, cohesion. cbn zeta.
  rewrite separate_loop_no_peers, align_loop_no_peers,
    cohesion_loop_no_peers by done.
  cbn [Nat.ltb Nat.leb fst snd]. repeat split; by footprint.
Qed.

End Steering.

Section Integration.

Context {N : Type} `{Number N} `{MathLib N}.
Local Open Scope num_scope.
Implicit Types (h : gmap ref (Vector N)) (a : Agent N) (r : ref).

(** ** Integration *)

(** The three assignments to fields of [this] touch one field each. *)
Lemma set_angle_fields n a :
  location (set_angle n a) = location a
  /\ velocity (set_angle n a) = velocity a
  /\ acceleration (set_angle n a) = acceleration a
  /\ lifespan (set_angle n a) = lifespan a
  /\ isStatic (set_angle n a) = isStatic a
  /\ isPressed (set_angle n a) = isPressed a
  /\ parent (set_angle n a) = parent a.
Proof. by destruct a. Qed.

Lemma set_location_fields r a :
  location (set_location r a) = r
  /\ velocity (set_location r a) = velocity a
  /\ acceleration (set_location r a) = acceleration a
  /\ lifespan (set_location r a) = lifespan a
  /\ isStatic (set_location r a) = isStatic a
  /\ isPressed (set_location r a) = isPressed a
  /\ parent (set_location r a) = parent a.
Proof. by destruct a. Qed.

Lemma set_lifespan_fields n a :
  location (set_lifespan n a) = location a
  /\ velocity (set_lifespan n a) = velocity a
  /\ acceleration (set_lifespan n a) = acceleration a
  /\ lifespan (set_lifespan n a) = n
  /\ isStatic (set_lifespan n a) = isStatic a
  /\ isPressed (set_lifespan n a) = isPressed a
  /\ parent (set_lifespan n a) = parent a.
Proof. by destruct a. Qed.

Lemma integrate_fields a h :
  location (integrate a h).1 = location a
  /\ velocity (integrate a h).1 = velocity a
  /\ acceleration (integrate a h).1 = acceleration a
  /\ lifespan (integrate a h).1 = lifespan a
  /\ isStatic (integrate a h).1 = isStatic a
  /\ isPressed (integrate a h).1 = isPressed a
  /\ parent (integrate a h).1 = parent a.
Proof.
  unfold integrate. cbn zeta. cbn [fst].
  destruct (pointToDirection a); [|done].
  destruct (nltb _ _); [|done]. apply set_angle_fields.
Qed.

Lemma apply_parent_fields a h :
  velocity (apply_parent a h).1 = velocity a
  /\ acceleration (apply_parent a h).1 = acceleration a
  /\ lifespan (apply_parent a h).1 = lifespan a
  /\ isStatic (apply_parent a h).1 = isStatic a
  /\ isPressed (apply_parent a h).1 = isPressed a
  /\ parent (apply_parent a h).1 = parent a.
Proof.
  unfold apply_parent. destruct (parent a) as [p|] eqn:Hp; [|done].
  destruct (ntruthy _).
  - by destruct (new_Vector _ _ _).
  - cbn [fst]. destruct (set_location_fields (parent_location p) a)
      as (_ & ? & ? & ? & ? & ? & Hpar). by rewrite Hpar.
Qed.

(** The heap of [integrate] before the angle is looked at. *)
Lemma integrate_heap a h :
  (integrate a h).2
  = Vector_add (location a) (velocity a)
      ((if ntruthy (minSpeed a)
        then Vector_limitLow (velocity a) (minSpeed a) else fun x => x)
         ((if ntruthy (maxSpeed a)
           then Vector_limit (velocity a) (maxSpeed a) else fun x => x)
            (Vector_add (velocity a) (acceleration a) h))).
Proof.
  unfold integrate. cbn zeta. cbn [snd].
  by destruct (ntruthy (minSpeed a)), (ntruthy (maxSpeed a)).
Qed.

(** Integration is one write to the location on top of writes to the
    velocity. *)
Lemma integrate_heap_split a h :
  exists h2,
    (integrate a h).2 = Vector_add (location a) (velocity a) h2
    /\ writes_only (velocity a) h h2.
Proof.
  rewrite integrate_heap. eexists. split; [reflexivity|].
  destruct (ntruthy (minSpeed a)), (ntruthy (maxSpeed a)); by footprint.
Qed.

(** X13. Integration advances the location by the velocity it has just
    computed (after the acceleration and the speed limits): with location
    and velocity distinct objects, the new location is the old location
    plus the new velocity. *)
Theorem integrate_advances_location a h :
  location a ≠ velocity a ->
  let h' := (integrate a h).2 in
  get_x h' (location a) = get_x h (location a) [+] get_x h' (velocity a)
  /\ get_y h' (location a) = get_y h (location a) [+] get_y h' (velocity a).
Proof.
  intros Hlv h'. subst h'.
  destruct (integrate_heap_split a h) as (h2 & -> & Hw).
  destruct (writes_only_get _ (location a) _ _ Hw Hlv) as [Hx Hy].
  destruct (get_add (location a) (velocity a) h2) as [Hax Hay].
  destruct (writes_only_get (location a) (velocity a) h2
              (Vector_add (location a) (velocity a) h2)) as [Hvx Hvy];
    [by footprint|done|].
  by rewrite Hax, Hay, Hvx, Hvy, Hx, Hy.
Qed.

(** X14. A [maxSpeed] of 0 switches the upper limit off, and so does a
    [minSpeed] of 0 the lower one: the new velocity is then exactly the
    old one plus the acceleration, however large. *)
Theorem integrate_unlimited a h :
  ntruthy (maxSpeed a) = false ->
  ntruthy (minSpeed a) = false ->
  location a ≠ velocity a ->
  let h' := (integrate a h).2 in
  get_x h' (velocity a) = get_x h (velocity a) [+] get_x h (acceleration a)
  /\ get_y h' (velocity a) = get_y h (velocity a) [+] get_y h (acceleration a).
Proof.
  intros Hmax Hmin Hlv h'. subst h'. rewrite integrate_heap, Hmax, Hmin.
  cbv beta.
  destruct (writes_only_get (location a) (velocity a)
              (Vector_add (velocity a) (acceleration a) h)
              (Vector_add (location a) (velocity a)
                 (Vector_add (velocity a) (acceleration a) h)))
    as [Hvx Hvy]; [by footprint|done|].
  rewrite Hvx, Hvy. apply get_add.
Qed.

(** ** The end of a step *)

(** What [step] makes of an agent that is active once [beforeStep] has
    run: the agent and store after the physics and [afterStep], then the
    reset of the acceleration and the countdown. *)
Lemma step_active env (cb : Callbacks N) (s : State N) :
  let s1 := run_hook BeforeStep (beforeStep cb) s in
  isStatic (this s1) = false ->
  isPressed (this s1) = false ->
  exists s2 : State N,
    step env cb s
    = mkState
        (if lifespan (this s2) [>] #0
         then set_lifespan (lifespan (this s2) [-] #1) (this s2)
         else this s2)
        (Vector_mult (acceleration (this s2)) #0 (heap s2))
        (log s2)
    /\ (afterStep cb = None ->
        lifespan (this s2) = lifespan (this s1)
        /\ isStatic (this s2) = false
        /\ isPressed (this s2) = false).
Proof.
  intros s1 Hs Hp. unfold step. fold s1. rewrite Hs, Hp. cbn [negb andb].
  destruct (apply_forces _ _ _ _ _ _) as [h1 out].
  destruct (integrate (this s1) h1) as [a2 h2] eqn:Hint.
  set (h2' := if controlCamera a2 then _ else _).
  set (h2'' := if checkEdges a2 || wrapEdges a2 then _ else _).
  destruct (apply_parent a2 h2'') as [a3 h3] eqn:Hpar.
  eexists. split; [reflexivity|].
  intros ->. cbn [run_hook this].
  destruct (integrate_fields (this s1) h1) as (_ & _ & _ & Hl & Hst & Hpr & _).
  destruct (apply_parent_fields a2 h2'') as (_ & _ & Hl' & Hst' & Hpr' & _).
  rewrite Hint in Hl, Hst, Hpr. rewrite Hpar in Hl', Hst', Hpr'.
  cbn [fst] in *. by rewrite Hl', Hst', Hpr', Hl, Hst, Hpr.
Qed.

(** X18. A lifespan that is not positive is never counted down: an agent
    with the default lifespan -1, or one that has reached 0, keeps it
    through any number of steps (no hooks, agent active). *)
Theorem lifespan_not_positive_is_kept env (cb : Callbacks N) (s : State N)
    (n : nat) :
  beforeStep cb = None ->
  afterStep cb = None ->
  isStatic (this s) = false ->
  isPressed (this s) = false ->
  (lifespan (this s) [>] #0) = false ->
  lifespan (this (steps n env cb s)) = lifespan (this s).
Proof.
  intros Hb Ha. revert s. induction n as [|n IH]; intros s Hs Hp Hl; [done|].
  cbn [steps].
  pose proof (step_active env cb s) as Hact. cbv zeta in Hact.
  rewrite Hb in Hact. cbn [run_hook] in Hact.
  destruct (Hact Hs Hp) as (s2 & Hstep & Hkeep).
  destruct (Hkeep Ha) as (Hl2 & Hs2 & Hp2).
  rewrite Hl2, Hl in Hstep.
  rewrite IH; rewrite Hstep; cbn [this]; congruence.
Qed.

End Integration.

(* ================================================================== *)
(** * Magnitudes, over the reals *)

Section RealVectors.

Local Open Scope R_scope.
Implicit Types (h : gmap ref (Vector R)) (a : Agent R) (r : ref).

Lemma mag_R h r :
  Vector_mag h r = sqrt (get_x h r * get_x h r + get_y h r * get_y h r).
Proof. reflexivity. Qed.

Lemma sum_squares_nonneg (x y : R) : 0 <= x * x + y * y.
Proof. nra. Qed.

Lemma mag_nonneg h r : 0 <= Vector_mag h r.
Proof. rewrite mag_R. apply sqrt_pos. Qed.

Lemma mag_square h r :
  Vector_mag h r * Vector_mag h r
  = get_x h r * get_x h r + get_y h r * get_y h r.
Proof. rewrite mag_R. apply sqrt_sqrt, sum_squares_nonneg. Qed.

Lemma mag_zero h r :
  Vector_mag h r = 0 -> get_x h r = 0 /\ get_y h r = 0.
Proof.
  intros Hm. pose proof (mag_square h r) as Hs. rewrite Hm in Hs.
  split; nra.
Qed.

(** A vector divided by its magnitude and scaled by [k] has magnitude
    [|k|]. *)
Lemma scaled_unit_mag (x y k : R) :
  sqrt (x * x + y * y) <> 0 ->
  sqrt ((x / sqrt (x * x + y * y) * k) * (x / sqrt (x * x + y * y) * k)
        + (y / sqrt (x * x + y * y) * k) * (y / sqrt (x * x + y * y) * k))
  = Rabs k.
Proof.
  intros Hm. set (m := sqrt (x * x + y * y)) in *.
  assert (Hs : m * m = x * x + y * y)
    by apply sqrt_sqrt, sum_squares_nonneg.
  replace ((x / m * k) * (x / m * k) + (y / m * k) * (y / m * k))
    with (Rsqr k * ((x * x + y * y) / (m * m)))
    by (unfold Rsqr; field; exact Hm).
  rewrite <- Hs. replace (m * m / (m * m)) with 1 by (field; exact Hm).
  rewrite Rmult_1_r. apply sqrt_Rsqr_abs.
Qed.

Lemma normalize_R r h :
  (Vector_mag h r = 0 -> Vector_normalize r h = h)
  /\ (Vector_mag h r <> 0 ->
      get_x (Vector_normalize r h) r = get_x h r / Vector_mag h r
      /\ get_y (Vector_normalize r h) r = get_y h r / Vector_mag h r).
Proof.
  unfold Vector_normalize. cbn [neqb nlit R_Number]. unfold Reqb.
  destruct (Req_dec_T (Vector_mag h r) 0) as [He|Hne];
    split; try done; intros _.
  exact (get_div r (Vector_mag h r) h).
Qed.

(** Normalising and scaling by [k]: the magnitude is [|k|], or the vector
    was zero and stays zero. *)
Lemma normalize_mult_mag r k h :
  Vector_mag h r <> 0 ->
  Vector_mag (Vector_mult r k (Vector_normalize r h)) r = Rabs k.
Proof.
  intros Hm. destruct (normalize_R r h) as [_ Hn].
  destruct (Hn Hm) as [Hx Hy].
  destruct (get_mult r k (Vector_normalize r h)) as [Hmx Hmy].
  rewrite mag_R. cbn [nmul R_Number] in Hmx, Hmy.
  rewrite Hmx, Hmy, Hx, Hy, mag_R.
  apply scaled_unit_mag. by rewrite <- mag_R.
Qed.

Lemma mult_zero_vector r k h :
  Vector_mag h r = 0 -> Vector_mag (Vector_mult r k h) r = 0.
Proof.
  intros Hm. destruct (mag_zero h r Hm) as [Hx Hy].
  destruct (get_mult r k h) as [Hmx Hmy]. cbn [nmul R_Number] in Hmx, Hmy.
  rewrite mag_R, Hmx, Hmy, Hx, Hy.
  replace (0 * k * (0 * k) + 0 * k * (0 * k)) with 0 by lra.
  apply sqrt_0.
Qed.

(** [limit] does what its name says. *)
Lemma limit_bound r high h :
  0 <= high -> Vector_mag (Vector_limit r high h) r <= high.
Proof.
  intros Hh. unfold Vector_limit. cbn [nltb R_Number]. unfold Rltb.
  destruct (Rlt_dec high (Vector_mag h r)) as [Hlt|Hge]; [|lra].
  rewrite normalize_mult_mag by lra. rewrite Rabs_right; lra.
Qed.

Lemma limit_small r high h :
  Vector_mag h r <= high -> Vector_limit r high h = h.
Proof.
  intros Hle. unfold Vector_limit. cbn [nltb R_Number].
  by rewrite Rltb_false.
Qed.

Lemma new_Vector_get (x y : R) h dv h1 :
  new_Vector x y h = (dv, h1) ->
  get_x h1 dv = x /\ get_y h1 dv = y.
Proof.
  intros Hnew. pose proof (get_new x y h) as Hg.
  rewrite Hnew in Hg. exact Hg.
Qed.

(** ** seek, follow, flee *)




(** ** drag, attract, isInside *)


Lemma constrain_R (val low high : R) :
  low <= high ->
  low <= Utils_constrain val low high <= high.
Proof.
  intros Hlh. unfold Utils_constrain. cbn [nltb R_Number]. unfold Rltb.
  destruct (Rlt_dec high val); [lra|].
  destruct (Rlt_dec val low); lra.
Qed.



(** ** The boundary check *)

Lemma Rltb_reflect (x y : R) : reflect (x < y) (Rltb x y).
Proof. unfold Rltb. destruct (Rlt_dec x y); by constructor. Qed.

(** One step in the symbolic run of a boundary check: read through the
    writes, settle comparisons of references by the hypotheses, split on the
    next comparison of numbers. *)
Ltac edges_step :=
  first
    [ rewrite get_x_set_y | rewrite get_y_set_x
    | rewrite get_x_set_x | rewrite get_y_set_y
    | rewrite decide_True by done
    | rewrite decide_False by done
    | match goal with
      | |- context [Rltb ?x ?y] => destruct (Rltb_reflect x y)
      end
    | progress cbn [fst snd andb] ].

(** X9. With [wrapEdges] on, the agent is inside the world after the
    check: [0 <= x <= width] and [0 <= y <= height]; its velocity is
    not touched. *)
Theorem checkWorldEdges_wrap_in_world a (w : World R) h :
  wrapEdges a = true ->
  0 <= world_width w ->
  0 <= world_height w ->
  NoDup [location a; velocity a; cameraDiffVector a; world_location w] ->
  let h' := (checkWorldEdges a w h).2 in
  0 <= get_x h' (location a) <= world_width w
  /\ 0 <= get_y h' (location a) <= world_height w
  /\ get_x h' (velocity a) = get_x h (velocity a)
  /\ get_y h' (velocity a) = get_y h (velocity a).
Proof.
  intros Hwrap HW HH Hnd h'. subst h'.
  rewrite !NoDup_cons, !not_elem_of_cons in Hnd.
  destruct Hnd as ((Hlv & Hlc & Hlw & _) & (Hvc & Hvw & _) & (Hcw & _) & _).
  unfold checkWorldEdges, camera_diff_x, camera_diff_y, Vector_add.
  cbn zeta. rewrite Hwrap. cbn [nltb nadd nsub nmul ndiv nlit R_Number].
  destruct (controlCamera a); repeat edges_step; repeat split; lra.
Qed.


Lemma Rabs_damped (v b : R) : 0 <= b <= 1 -> Rabs (v * (-1 * b)) <= Rabs v.
Proof.
  intros Hb. replace (v * (-1 * b)) with (- (b * v)) by lra.
  rewrite Rabs_Ropp, Rabs_mult, (Rabs_right b) by lra.
  pose proof (Rabs_pos v). nra.
Qed.

(** X11. With a bounciness between 0 and 1 the boundary check never
    makes the agent faster on either axis, whichever mode is on. *)
Theorem checkWorldEdges_never_speeds_up a (w : World R) h :
  0 <= bounciness a <= 1 ->
  NoDup [location a; velocity a; cameraDiffVector a; world_location w] ->
  let h' := (checkWorldEdges a w h).2 in
  Rabs (get_x h' (velocity a)) <= Rabs (get_x h (velocity a))
  /\ Rabs (get_y h' (velocity a)) <= Rabs (get_y h (velocity a)).
Proof.
  intros Hb Hnd h'. subst h'.
  rewrite !NoDup_cons, !not_elem_of_cons in Hnd.
  destruct Hnd as ((Hlv & Hlc & Hlw & _) & (Hvc & Hvw & _) & (Hcw & _) & _).
  unfold checkWorldEdges, camera_diff_x, camera_diff_y, Vector_add.
  cbn zeta. cbn [nltb nadd nsub nmul ndiv nlit R_Number].
  destruct (wrapEdges a), (controlCamera a); repeat edges_step;
    split; first [apply Rle_refl | by apply Rabs_damped].
Qed.

(** X12. [checkCameraEdges] moves the world's location by the opposite of
    the velocity and leaves the velocity itself as it was: the sign is
    flipped in the scratch vector, not in place. *)
Theorem checkCameraEdges_moves_world a h :
  NoDup [velocity a; checkCameraEdgesVector a; world_location (world a)] ->
  let h' := checkCameraEdges a h in
  get_x h' (world_location (world a))
    = get_x h (world_location (world a)) - get_x h (velocity a)
  /\ get_y h' (world_location (world a))
    = get_y h (world_location (world a)) - get_y h (velocity a)
  /\ get_x h' (velocity a) = get_x h (velocity a)
  /\ get_y h' (velocity a) = get_y h (velocity a).
Proof.
  intros Hnd h'. subst h'.
  rewrite !NoDup_cons, !not_elem_of_cons in Hnd.
  destruct Hnd as ((Hvc & Hvw & _) & (Hcw & _) & _).
  unfold checkCameraEdges, Vector_add, Vector_mult. cbn zeta.
  cbn [nadd nmul nlit R_Number].
  repeat edges_step; repeat split; lra.
Qed.

(** ** Integration and the end of a step *)

Lemma mag_writes_only r r' h h' :
  writes_only r h h' -> r' ≠ r -> Vector_mag h' r' = Vector_mag h r'.
Proof.
  intros Hw Hr. destruct (writes_only_get r r' h h' Hw Hr) as [Hx Hy].
  by rewrite !mag_R, Hx, Hy.
Qed.

Lemma limitLow_R r low h :
  0 <= low ->
  Vector_mag (Vector_limitLow r low h) r = 0
  \/ (low <= Vector_mag (Vector_limitLow r low h) r
      /\ Vector_mag (Vector_limitLow r low h) r
         <= Rmax low (Vector_mag h r)).
Proof.
  intros Hlow. unfold Vector_limitLow. cbn [nltb R_Number].
  destruct (Rltb_reflect (Vector_mag h r) low) as [Hlt|Hge].
  - destruct (Req_dec_T (Vector_mag h r) 0) as [H0|Hne].
    + left. destruct (normalize_R r h) as [Hz _]. rewrite Hz by done.
      by apply mult_zero_vector.
    + right. rewrite normalize_mult_mag by done.
      rewrite Rabs_right by lra. split; [lra|apply Rmax_l].
  - right. split; [lra|apply Rmax_r].
Qed.





End RealVectors.

Section Sharing.

Context {N : Type} `{Number N} `{MathLib N}.
Local Open Scope num_scope.
Implicit Types (h : gmap ref (Vector N)) (a : Agent N) (r : ref).

(** X23. With a parent and [offsetDistance] 0 the agent does not copy the
    parent's location, it adopts the parent's location object.  The store
    is unchanged, and from then on the agent's own integration moves the
    parent: it adds the agent's velocity to the parent's location. *)
Theorem apply_parent_shares_location a (p : Parent N) h :
  parent a = Some p ->
  ntruthy (offsetDistance a) = false ->
  velocity a ≠ parent_location p ->
  let a' := (apply_parent a h).1 in
  let h' := (integrate a' h).2 in
  (apply_parent a h).2 = h
  /\ location a' = parent_location p
  /\ get_x h' (parent_location p)
     = get_x h (parent_location p) [+] get_x h' (velocity a)
  /\ get_y h' (parent_location p)
     = get_y h (parent_location p) [+] get_y h' (velocity a).
Proof.
  intros Hpar Hoff Hvp a' h'. subst a' h'.
  unfold apply_parent. rewrite Hpar, Hoff. cbn [fst snd].
  destruct (set_location_fields (parent_location p) a)
    as (Hl & Hv & _).
  split; [done|]. split; [done|].
  destruct (integrate_heap_split (set_location (parent_location p) a) h)
    as (h2 & -> & Hw).
  rewrite Hl, Hv in *.
  destruct (writes_only_get _ (parent_location p) _ _ Hw)
    as [Hx Hy]; [by apply not_eq_sym|].
  destruct (get_add (parent_location p) (velocity a) h2) as [Hax Hay].
  destruct (writes_only_get (parent_location p) (velocity a) h2
              (Vector_add (parent_location p) (velocity a) h2))
    as [Hvx Hvy]; [by footprint|done|].
  by rewrite Hax, Hay, Hvx, Hvy, Hx, Hy.
Qed.

End Sharing.

Section Getters.

Context {N : Type} `{Number N}.
Local Open Scope num_scope.
Implicit Types (h : gmap ref (Vector N)) (a : Agent N) (r : ref).

(** X24. [getLocation()] hands out a copy: a new object holding the
    location's coordinates, and nothing written to that object afterwards
    reaches the agent's location.  With an axis other than x and y it
    returns undefined. *)
Theorem getLocation_is_a_copy a h (copy : ref) h' :
  location a ∈ dom h ->
  getLocation a None h = (RetVector copy, h') ->
  (copy ∉ dom h)
  /\ get_x h' copy = get_x h (location a)
  /\ get_y h' copy = get_y h (location a)
  /\ extends h h'
  /\ forall h'', writes_only copy h' h'' ->
       h'' !!! location a = h !!! location a.
Proof.
  intros Hdom Hget. unfold getLocation in Hget. cbn in Hget.
  injection Hget as <- <-.
  assert (Hne : location a ≠ fresh (dom h)).
  { intros Heq. apply (is_fresh (dom h)). by rewrite <- Heq. }
  split; [apply is_fresh|].
  split; [unfold get_x; by rewrite lookup_total_insert_eq|].
  split; [unfold get_y; by rewrite lookup_total_insert_eq|].
  split.
  - intros r Hr. apply lookup_insert_ne. intros <-.
    by apply (is_fresh (dom h)).
  - intros h'' Hw. rewrite !lookup_total_alt, (Hw _ Hne).
    by rewrite lookup_insert_ne.
Qed.

(** X25. [pointToDirection] and [checkEdges] default to true and are
    switched off by the literal [false] only: the constructed property is
    [false] exactly when the option is [false]; undefined, null, 0 and the
    empty string all leave it on. *)
Theorem Agent_constructor_false_only
    (Element_call : gmap string (JSValue N) -> Completion (ElementPart N))
    (opt_options : option (gmap string (JSValue N))) (p : AgentProps N) :
  Agent_constructor Element_call opt_options = Normal p ->
  (p_checkEdges p = VBool false
   <-> prop (default ∅ opt_options) "checkEdges" = VBool false)
  /\ (p_pointToDirection p = VBool false
      <-> prop (default ∅ opt_options) "pointToDirection" = VBool false)
  /\ (ToBoolean (prop (default ∅ opt_options) "checkEdges") = false ->
      prop (default ∅ opt_options) "checkEdges" ≠ VBool false ->
      p_checkEdges p = VBool true).
Proof.
  unfold Agent_constructor. cbn zeta.
  destruct (Element_call _) as [base|]; [|done].
  intros [= <-]. cbn [p_checkEdges p_pointToDirection].
  assert (Hfot : forall v : JSValue N,
            false_or_true v = VBool false <-> v = VBool false).
  { intros v. unfold false_or_true, js_or.
    destruct v as [| |[]|n|t| |]; cbn; try done; split; try done.
    - by destruct (ntruthy n).
    - by destruct (negb _). }
  split; [apply Hfot|]. split; [apply Hfot|].
  intros Hfalsy Hnf. unfold false_or_true, js_or. rewrite Hfalsy.
  destruct (prop _ "checkEdges") as [| |[]| | | |]; done.
Qed.

End Getters.

(* ================================================================== *)
(** * Forces, flocking and the constructor, over the reals *)

Section RealAgent.

Local Open Scope R_scope.
Implicit Types (h : gmap ref (Vector R)) (a : Agent R) (r : ref).

(** Reads through the writes, with the comparisons of references settled
    by the hypotheses. *)
Ltac reads :=
  repeat first
    [ rewrite get_x_set_y | rewrite get_y_set_x
    | rewrite get_x_set_x | rewrite get_y_set_y
    | rewrite decide_True by done
    | rewrite decide_False by done ].

(** ** The constructor *)

(** X26. A constructed agent never has a mass of 0: a missing or zero
    [mass] option is replaced by 10, so the property is always truthy.
    For [maxSpeed] and [bounciness], by contrast, an explicit 0 is
    kept. *)
Theorem Agent_constructor_mass_never_zero
    (Element_call : gmap string (JSValue R) -> Completion (ElementPart R))
    (opt_options : option (gmap string (JSValue R))) (p : AgentProps R) :
  Agent_constructor Element_call opt_options = Normal p ->
  ToBoolean (p_mass p) = true
  /\ (prop (default ∅ opt_options) "mass" = VNum 0 -> p_mass p = VNum 10)
  /\ (prop (default ∅ opt_options) "maxSpeed" = VNum 0 ->
      p_maxSpeed p = VNum 0)
  /\ (prop (default ∅ opt_options) "bounciness" = VNum 0 ->
      p_bounciness p = VNum 0).
Proof.
  unfold Agent_constructor. cbn zeta.
  destruct (Element_call _) as [base|]; [|done].
  intros [= <-]. cbn [p_mass p_maxSpeed p_bounciness].
  assert (H10 : ToBoolean (VNum (N:=R) 10) = true).
  { cbn. by rewrite Reqb_false by lra. }
  assert (H0 : ToBoolean (VNum (N:=R) 0) = false).
  { cbn. unfold Reqb. by destruct (Req_dec_T 0 0). }
  assert (Hz : is_zero (VNum (N:=R) 0) = true).
  { cbn. unfold Reqb. by destruct (Req_dec_T 0 0). }
  repeat split.
  - unfold js_or. by destruct (ToBoolean (prop _ "mass")) eqn:E.
  - intros ->. unfold js_or. by rewrite H0.
  - intros ->. unfold zero_or. by rewrite Hz.
  - intros ->. unfold zero_or. by rewrite Hz.
Qed.

(** ** Forces on the acceleration *)

(** A force held in an object of its own. *)
Lemma applyForce_adds a f h :
  f ≠ applyForceVector a ->
  acceleration a ≠ applyForceVector a ->
  get_x (applyForce a f h) (acceleration a)
    = get_x h (acceleration a) + get_x h f / mass a
  /\ get_y (applyForce a f h) (acceleration a)
    = get_y h (acceleration a) + get_y h f / mass a.
Proof. intros Hf Ha. exact (applyForce_acceleration a f h Hf Ha). Qed.

Lemma applyForce_get_other a f h r :
  r ≠ acceleration a -> r ≠ applyForceVector a ->
  get_x (applyForce a f h) r = get_x h r
  /\ get_y (applyForce a f h) r = get_y h r.
Proof.
  intros Hacc Hafv. unfold get_x, get_y.
  by rewrite (applyForce_other a f h r Hacc Hafv).
Qed.

(** One of the three forces of [flock] when it is the zero vector: a
    scratch sum is written, the zero vector is scaled and applied. *)
Lemma flock_zero_force a (sum : ref) (k : R) h h1 :
  writes_only sum h h1 ->
  acceleration a ≠ applyForceVector a ->
  zeroForceVector a ≠ acceleration a ->
  zeroForceVector a ≠ applyForceVector a ->
  zeroForceVector a ≠ sum ->
  acceleration a ≠ sum ->
  get_x h (zeroForceVector a) = 0 ->
  get_y h (zeroForceVector a) = 0 ->
  let h' := applyForce a (zeroForceVector a)
              (Vector_mult (zeroForceVector a) k h1) in
  get_x h' (acceleration a) = get_x h (acceleration a)
  /\ get_y h' (acceleration a) = get_y h (acceleration a)
  /\ get_x h' (zeroForceVector a) = 0
  /\ get_y h' (zeroForceVector a) = 0.
Proof.
  intros Hw Haf Hza Hzf Hzs Has Hzx Hzy h'. subst h'.
  set (h2 := Vector_mult (zeroForceVector a) k h1).
  destruct (writes_only_get sum (zeroForceVector a) h h1 Hw Hzs)
    as [Hzx1 Hzy1].
  destruct (writes_only_get sum (acceleration a) h h1 Hw Has)
    as [Hax1 Hay1].
  destruct (get_mult (zeroForceVector a) k h1) as [Hmx Hmy].
  cbn [nmul R_Number] in Hmx, Hmy. fold h2 in Hmx, Hmy.
  destruct (writes_only_get (zeroForceVector a) (acceleration a) h1 h2)
    as [Hax2 Hay2]; [subst h2; by footprint|done|].
  destruct (applyForce_adds a (zeroForceVector a) h2 Hzf Haf) as [Hx Hy].
  destruct (applyForce_get_other a (zeroForceVector a) h2
              (zeroForceVector a) Hza Hzf) as [Hzx3 Hzy3].
  rewrite Hx, Hy, Hzx3, Hzy3, Hmx, Hmy, Hax2, Hay2, Hax1, Hay1,
    Hzx1, Hzy1, Hzx, Hzy.
  unfold Rdiv. repeat split; lra.
Qed.


(** A copy of the velocity, for [apply_friction] and [apply_motor]. *)
Lemma clone_velocity a h f h1 :
  Utils_clone (velocity a) h = (f, h1) ->
  acceleration a ∈ dom h ->
  applyForceVector a ∈ dom h ->
  velocity a ∈ dom h ->
  get_x h1 f = get_x h (velocity a)
  /\ get_y h1 f = get_y h (velocity a)
  /\ writes_only f h h1
  /\ acceleration a ≠ f /\ applyForceVector a ≠ f /\ velocity a ≠ f.
Proof.
  unfold Utils_clone. intros Hnew Ha Hf Hv.
  destruct (new_Vector_get _ _ h f h1 Hnew) as [Hx Hy].
  destruct (new_Vector_writes_fresh _ _ h f h1 Hnew) as [-> Hw].
  repeat split; try done;
    intros Heq; apply (is_fresh (dom h)); by rewrite <- Heq.
Qed.

(** X28. World friction pushes against the velocity: a moving agent's
    acceleration changes by [- c / mass] times the unit vector of its
    velocity. *)
Theorem apply_friction_opposes_velocity a (w : World R) (c : R) h :
  world_c w = Some c ->
  c <> 0 ->
  Vector_mag h (velocity a) <> 0 ->
  acceleration a ≠ applyForceVector a ->
  acceleration a ∈ dom h ->
  applyForceVector a ∈ dom h ->
  velocity a ∈ dom h ->
  let speed := Vector_mag h (velocity a) in
  let h' := apply_friction w a h in
  get_x h' (acceleration a)
    = get_x h (acceleration a) - c * (get_x h (velocity a) / speed) / mass a
  /\ get_y h' (acceleration a)
    = get_y h (acceleration a) - c * (get_y h (velocity a) / speed) / mass a.
Proof.
  intros Hc Hc0 Hsp Haf Hda Hdf Hdv speed h'. subst h'.
  unfold apply_friction. rewrite Hc. cbn [ntruthy R_Number].
  rewrite Reqb_false by done. cbn [negb].
  destruct (Utils_clone (velocity a) h) as [f h1] eqn:Hclone.
  destruct (clone_velocity a h f h1 Hclone Hda Hdf Hdv)
    as (Hx & Hy & Hw & Haf' & Hff & Hvf).
  cbn [nlit R_Number].
  set (h2 := Vector_mult f (-1) h1).
  destruct (get_mult f (-1) h1) as [Hmx Hmy].
  cbn [nmul R_Number] in Hmx, Hmy. fold h2 in Hmx, Hmy.
  assert (Hmag : Vector_mag h2 f = speed).
  { rewrite mag_R, Hmx, Hmy, Hx, Hy. subst speed. rewrite mag_R.
    f_equal. ring. }
  destruct (normalize_R f h2) as [_ Hn].
  destruct Hn as [Hnx Hny]; [by rewrite Hmag|].
  set (h3 := Vector_normalize f h2) in *.
  destruct (get_mult f c h3) as [Hcx Hcy].
  cbn [nmul R_Number] in Hcx, Hcy.
  set (h4 := Vector_mult f c h3) in *.
  assert (Hw4 : writes_only f h h4)
    by (subst h4 h3 h2; by footprint).
  destruct (writes_only_get f (acceleration a) h h4 Hw4 Haf') as [Hax Hay].
  destruct (applyForce_adds a f h4) as [Hfx Hfy]; [done|done|].
  rewrite Hfx, Hfy, Hax, Hay, Hcx, Hcy, Hnx, Hny, Hmag, Hmx, Hmy, Hx, Hy.
  unfold Rdiv. split; ring.
Qed.

(** X29. The motor pushes a moving agent along its velocity with a force
    of magnitude [motorSpeed]: forwards while the speed is at most
    [motorSpeed], backwards once it is larger (no sensor activated). *)
Theorem apply_motor_along_velocity a h :
  motorSpeed a <> 0 ->
  Vector_mag h (velocity a) <> 0 ->
  acceleration a ≠ applyForceVector a ->
  acceleration a ∈ dom h ->
  applyForceVector a ∈ dom h ->
  velocity a ∈ dom h ->
  let speed := Vector_mag h (velocity a) in
  let push := if Rlt_dec (motorSpeed a) speed
              then - motorSpeed a else motorSpeed a in
  let h' := apply_motor a false h in
  get_x h' (acceleration a)
    = get_x h (acceleration a)
      + push * (get_x h (velocity a) / speed) / mass a
  /\ get_y h' (acceleration a)
    = get_y h (acceleration a)
      + push * (get_y h (velocity a) / speed) / mass a.
Proof.
  intros Hm Hsp Haf Hda Hdf Hdv speed push h'. subst h'.
  unfold apply_motor. cbn [negb andb ntruthy R_Number].
  rewrite Reqb_false by done. cbn [negb].
  destruct (Utils_clone (velocity a) h) as [f h1] eqn:Hclone.
  destruct (clone_velocity a h f h1 Hclone Hda Hdf Hdv)
    as (Hx & Hy & Hw & Haf' & Hff & Hvf).
  assert (Hmag : Vector_mag h1 f = speed)
    by (by rewrite mag_R, Hx, Hy).
  destruct (normalize_R f h1) as [_ Hn].
  destruct Hn as [Hnx Hny]; [by rewrite Hmag|].
  set (h2 := Vector_normalize f h1) in *.
  assert (Hw2 : writes_only f h h2) by (subst h2; by footprint).
  rewrite (mag_writes_only f (velocity a) h h2 Hw2 Hvf). fold speed.
  cbn [nltb nneg R_Number]. unfold Rltb. subst push.
  destruct (Rlt_dec (motorSpeed a) speed).
  - destruct (get_mult f (- motorSpeed a) h2) as [Hcx Hcy].
    cbn [nmul R_Number] in Hcx, Hcy.
    set (h3 := Vector_mult f (- motorSpeed a) h2) in *.
    assert (Hw3 : writes_only f h h3) by (subst h3; by footprint).
    destruct (writes_only_get f (acceleration a) h h3 Hw3 Haf')
      as [Hax Hay].
    destruct (applyForce_adds a f h3) as [Hfx Hfy]; [done|done|].
    rewrite Hfx, Hfy, Hax, Hay, Hcx, Hcy, Hnx, Hny, Hmag, Hx, Hy.
    unfold Rdiv. split; ring.
  - destruct (get_mult f (motorSpeed a) h2) as [Hcx Hcy].
    cbn [nmul R_Number] in Hcx, Hcy.
    set (h3 := Vector_mult f (motorSpeed a) h2) in *.
    assert (Hw3 : writes_only f h h3) by (subst h3; by footprint).
    destruct (writes_only_get f (acceleration a) h h3 Hw3 Haf')
      as [Hax Hay].
    destruct (applyForce_adds a f h3) as [Hfx Hfy]; [done|done|].
    rewrite Hfx, Hfy, Hax, Hay, Hcx, Hcy, Hnx, Hny, Hmag, Hx, Hy.
    unfold Rdiv. split; ring.
Qed.

End RealAgent.

Section RealSeparate.

Local Open Scope R_scope.
Implicit Types (h : gmap ref (Vector R)) (a : Agent R) (r : ref).


End RealSeparate.

(* ================================================================== *)
(** * The further theorems at concrete inputs *)

Section RealWitnesses.

Local Open Scope R_scope.

(** An object of a fixture store is in its domain. *)
Ltac in_store := apply elem_of_dom; eexists; reflexivity.

Lemma sqrt_25 : sqrt ((3 - 0) * (3 - 0) + (4 - 0) * (4 - 0)) = 5.
Proof.
  replace ((3 - 0) * (3 - 0) + (4 - 0) * (4 - 0)) with (5 * 5) by lra.
  apply sqrt_square. lra.
Defined.





Lemma checkWorldEdges_wrap_in_world_witness :
  let a := fixture_agent_with re_world true 10 0 (-1) 30 None in
  let h := re_store (-5, 50) (-10, 0) in
  0 <= get_x (checkWorldEdges a re_world h).2 (location a) <= 800.
Proof.
  intros a h.
  refine (proj1 (checkWorldEdges_wrap_in_world a re_world h _ _ _ _)).
  - reflexivity.
  - cbn. lra.
  - cbn. lra.
  - apply (bool_decide_unpack _). vm_compute. exact I.
Defined.


Lemma checkWorldEdges_never_speeds_up_witness :
  let a := re_agent 10 10 false None in
  let h := re_store (900, 50) (5, 0) in
  Rabs (get_x (checkWorldEdges a re_world h).2 (velocity a))
  <= Rabs (get_x h (velocity a)).
Proof.
  intros a h.
  refine (proj1 (checkWorldEdges_never_speeds_up a re_world h _ _)).
  - cbn. lra.
  - apply (bool_decide_unpack _). vm_compute. exact I.
Defined.

Lemma checkCameraEdges_moves_world_witness :
  let a := re_agent 10 10 false None in
  let h := re_store (100, 100) (5, 7) in
  get_x (checkCameraEdges a h) (world_location (world a))
  = get_x h (world_location (world a)) - get_x h (velocity a).
Proof.
  intros a h. refine (proj1 (checkCameraEdges_moves_world a h _)).
  apply (bool_decide_unpack _). vm_compute. exact I.
Defined.

Lemma integrate_advances_location_witness :
  let a := re_agent 10 10 false None in
  let h := re_store (100, 100) (5, 7) in
  get_x (integrate a h).2 (location a)
  = get_x h (location a) + get_x (integrate a h).2 (velocity a).
Proof.
  intros a h. refine (proj1 (integrate_advances_location a h _)).
  discriminate.
Defined.

Lemma integrate_unlimited_witness :
  let a := fixture_agent_with re_world false 0 0 (-1) 30 None in
  let h := re_store (100, 100) (5, 7) in
  get_x (integrate a h).2 (velocity a)
  = get_x h (velocity a) + get_x h (acceleration a).
Proof.
  intros a h. refine (proj1 (integrate_unlimited a h _ _ _)).
  - cbn. unfold Reqb. by destruct (Req_dec_T 0 0).
  - cbn. unfold Reqb. by destruct (Req_dec_T 0 0).
  - discriminate.
Defined.


Lemma lifespan_not_positive_is_kept_witness :
  lifespan (this (steps 3 fixture_env re_callbacks_none
                    (re_state_active (-1)))) = -1.
Proof.
  refine (lifespan_not_positive_is_kept fixture_env re_callbacks_none
            (re_state_active (-1)) 3 _ _ _ _ _); try reflexivity.
  cbn. apply Rltb_false. lra.
Defined.




Lemma apply_parent_shares_location_witness :
  let a := fixture_agent_with re_world false 10 0 (-1) 0
             (Some fixture_parent) in
  let h := fixture_store (100, 100) (0, 0) (0, 0) (300, 300) in
  location (apply_parent a h).1 = 16%positive.
Proof.
  intros a h.
  refine (proj1 (proj2 (apply_parent_shares_location a fixture_parent h
                          _ _ _))).
  - reflexivity.
  - cbn. unfold Reqb. by destruct (Req_dec_T 0 0).
  - discriminate.
Defined.

Lemma Agent_constructor_mass_never_zero_witness :
  ToBoolean (p_mass (Agent_defaults (N:=R)
                       {| elem_width := 10; elem_el := 0 |})) = true.
Proof.
  refine (proj1 (Agent_constructor_mass_never_zero re_Element_call None
                   (Agent_defaults {| elem_width := 10; elem_el := 0 |})
                   _)).
  unfold Agent_constructor, re_Element_call, Agent_defaults, zero_or,
    false_or_true, js_or.
  cbn zeta. cbn [default]. rewrite !prop_empty. reflexivity.
Defined.


Lemma apply_friction_opposes_velocity_witness :
  let a := re_agent 10 10 false None in
  let h := fixture_store (0, 0) (3, 4) (0, 0) (0, 0) in
  get_x (apply_friction (fixture_world_friction (1 / 10)) a h)
        (acceleration a)
  = get_x h (acceleration a)
    - 1 / 10 * (get_x h (velocity a) / Vector_mag h (velocity a)) / mass a.
Proof.
  intros a h.
  refine (proj1 (apply_friction_opposes_velocity a
                   (fixture_world_friction (1 / 10)) (1 / 10) h
                   _ _ _ _ _ _ _)).
  - reflexivity.
  - lra.
  - change (sqrt (3 * 3 + 4 * 4) <> 0).
    apply Rgt_not_eq, sqrt_lt_R0. lra.
  - discriminate.
  - in_store.
  - in_store.
  - in_store.
Defined.

Lemma apply_motor_along_velocity_witness :
  let a := fixture_agent_with re_world false 10 2 (-1) 30 None in
  let h := fixture_store (0, 0) (3, 4) (0, 0) (0, 0) in
  get_x (apply_motor a false h) (acceleration a)
  = get_x h (acceleration a)
    + (if Rlt_dec (motorSpeed a) (Vector_mag h (velocity a))
       then - motorSpeed a else motorSpeed a)
      * (get_x h (velocity a) / Vector_mag h (velocity a)) / mass a.
Proof.
  intros a h.
  refine (proj1 (apply_motor_along_velocity a h _ _ _ _ _ _)).
  - cbn. lra.
  - change (sqrt (3 * 3 + 4 * 4) <> 0).
    apply Rgt_not_eq, sqrt_lt_R0. lra.
  - discriminate.
  - in_store.
  - in_store.
  - in_store.
Defined.


End RealWitnesses.

Section Binary64Witnesses.

Local Open Scope float_scope.

Lemma checkWorldEdges_false_unchanged_witness :
  (checkWorldEdges (fl_agent 10) fl_world (fl_store (400, 300) (1, 1))).2
  = fl_store (400, 300) (1, 1).
Proof.
  apply (checkWorldEdges_false_unchanged (fl_agent 10) fl_world
           (fl_store (400, 300) (1, 1))).
  vm_compute. reflexivity.
Defined.

Lemma apply_liquids_none_witness :
  apply_liquids (fl_agent 10) [fixture_liquid]
                (fixture_store (400, 300) (1, 1) (0, 0) (100, 100)) []
  = (fixture_store (400, 300) (1, 1) (0, 0) (100, 100), []).
Proof.
  apply (apply_liquids_none (fl_agent 10) [fixture_liquid]
           (fixture_store (400, 300) (1, 1) (0, 0) (100, 100)) []).
  constructor; [|constructor]. right. vm_compute. reflexivity.
Defined.

Lemma flocking_no_peers_witness :
  (separate (fl_agent 10) [fixture_stranger]
            (fixture_store (0, 0) (0, 0) (0, 0) (3, 4))).1
  = zeroForceVector (fl_agent 10).
Proof.
  apply (flocking_no_peers (fl_agent 10) [fixture_stranger]
           (fixture_store (0, 0) (0, 0) (0, 0) (3, 4))).
  constructor; [|constructor]. left. discriminate.
Defined.

Lemma getLocation_is_a_copy_witness :
  get_x (getLocation (fl_agent 10) None (fl_store (1, 2) (3, 4))).2
        18%positive
  = get_x (fl_store (1, 2) (3, 4)) (location (fl_agent 10)).
Proof.
  refine (proj1 (proj2 (getLocation_is_a_copy (fl_agent 10)
                          (fl_store (1, 2) (3, 4)) 18%positive
                          (getLocation (fl_agent 10) None
                             (fl_store (1, 2) (3, 4))).2 _ _))).
  - apply elem_of_dom. eexists. vm_compute. reflexivity.
  - vm_compute. reflexivity.
Defined.

Lemma Agent_constructor_false_only_witness :
  p_checkEdges (Agent_defaults (N:=float)
                  {| elem_width := 10; elem_el := 0 |}) = VBool false
  <-> prop (N:=float) ∅ "checkEdges" = VBool false.
Proof.
  refine (proj1 (Agent_constructor_false_only fl_Element_call None
                   (Agent_defaults {| elem_width := 10; elem_el := 0 |})
                   _)).
  vm_compute. reflexivity.
Defined.

End Binary64Witnesses.
